(** * The work-card pipeline of [.dams]: a shallow embedding

    Two scripts are embedded here:
    - [generate_work_cards.py] turns the milestone catalog into one work
      card per task and writes each card to a file;
    - [zip_milestones.py] bundles card files into one archive per
      milestone and records one generated password per milestone in a
      vault file.

    A Python [str] is embedded as a [string] whose characters stand for
    code points below 256; a Python [int] is embedded as [Z]. *)

From stdpp Require Import gmap strings list fin_maps pretty.
From Stdlib Require Import ZArith Ascii String.
From Stdlib.Strings Require Byte.

Local Open Scope string_scope.
Local Open Scope Z_scope.

(** ** Python string operations used by the two scripts *)

Module PyStr.

(** [len(s)] *)
Definition len (s : string) : Z := Z.of_nat (String.length s).

(** One character of [str.lower()]: the upper-case letters of the first
    256 code points are A..Z and U+00C0..U+00DE without U+00D7; each has
    its lower-case partner 32 places further. *)
Definition lower_char (c : ascii) : ascii :=
  let n := N_of_ascii c in
  if ((65 <=? n) && (n <=? 90)
      || (192 <=? n) && (n <=? 222) && negb (n =? 215))%N
  then ascii_of_N (n + 32) else c.

(** [s.lower()] *)
Fixpoint lower (s : string) : string :=
  match s with
  | EmptyString => EmptyString
  | String c r => String (lower_char c) (lower r)
  end.

(** [s.replace(old, new)] for one-character [old] and [new], the only
    form the scripts use. *)
Fixpoint replace (old new : ascii) (s : string) : string :=
  match s with
  | EmptyString => EmptyString
  | String c r =>
      String (if Ascii.eqb c old then new else c) (replace old new r)
  end.

(** [s.split(sep)] for a one-character separator: one more piece than
    there are separators, empty pieces kept. *)
Fixpoint split (sep : ascii) (s : string) : list string :=
  match s with
  | EmptyString => [EmptyString]
  | String c r =>
      if Ascii.eqb c sep then EmptyString :: split sep r
      else match split sep r with
           | piece :: pieces => String c piece :: pieces
           | [] => [String c EmptyString]
           end
  end.

(** [p in s]: [p] occurs in [s] as a contiguous run of characters. *)
Fixpoint contains (p s : string) : bool :=
  String.prefix p s ||
  match s with
  | EmptyString => false
  | String _ r => contains p r
  end.

(** [any(f(x) for x in l)] *)
Definition any {A} (f : A → bool) (l : list A) : bool := existsb f l.

(** [n] zeros *)
Fixpoint zeros (n : nat) : string :=
  match n with
  | O => EmptyString
  | S k => String "0" (zeros k)
  end.

(** The decimal digits of a natural number, no leading zero. *)
Definition digits (n : N) : string := pretty n.

(** [format(n, "0<w>d")]: sign-aware zero padding to a minimum width;
    the sign counts towards the width. *)
Definition format_0d (w : nat) (n : Z) : string :=
  let ds := digits (Z.abs_N n) in
  if n <? 0
  then String "-" (zeros (w - 1 - String.length ds)%nat +:+ ds)
  else zeros (w - String.length ds)%nat +:+ ds.

(** [s.startswith("/")] and [s.endswith("/")] *)
Definition starts_with_sep (s : string) : bool :=
  match s with
  | String c _ => Ascii.eqb c "/"
  | EmptyString => false
  end.

Fixpoint ends_with_sep (s : string) : bool :=
  match s with
  | EmptyString => false
  | String c EmptyString => Ascii.eqb c "/"
  | String _ r => ends_with_sep r
  end.

(** [os.path.join(a, b)] of [posixpath], two components. *)
Definition os_path_join (a b : string) : string :=
  if starts_with_sep b then b
  else if (String.length a =? 0)%nat || ends_with_sep a then a +:+ b
  else a +:+ "/" +:+ b.

(** [enumerate(l, start=start)] *)
Fixpoint enumerate {A} (l : list A) (start : Z) : list (Z * A) :=
  match l with
  | [] => []
  | x :: r => (start, x) :: enumerate r (start + 1)
  end.

End PyStr.

(** ** [generate_work_cards.py] *)

Module generate_work_cards.
Import PyStr.

(** An entry of the catalog: [{"name": .., "card_range": (start, end),
    "tasks": [..]}]. *)
Record Milestone := {
  name : string;
  card_range : Z * Z;
  tasks : list string
}.

Definition milestones : list Milestone := [
  {| name := "TDD Foundation";
     card_range := (1, 8);
     tasks := [
       "Fix config_tests.rs complex type violations";
       "Convert Config struct tests to string functions";
       "Convert ConfigError tests to string outputs";
       "Test `do_*` functions, not internal structs";
       "Fix integration.rs RSB pattern violations";
       "Replace std::env with RSB patterns";
       "Replace std::fs with RSB operations";
       "Replace std::process with shell ops";
       "Establish RED-GREEN cycle discipline";
       "Document TDD workflow";
       "Create TDD templates";
       "Update test runner configuration";
       "Pass all existing tests with TDD patterns" ] |};
  {| name := "Core KV Operations";
     card_range := (6, 12);
     tasks := [
       "Implement core KV commands (set, get, del, keys, scan)";
       "Develop namespace management";
       "Create basic auth system";
       "Implement stream processing with meta-directives";
       "Define exit code standards";
       "Ensure TDD for each new function";
       "Implement RSB string-first patterns";
       "Add comprehensive error handling";
       "Develop integration test coverage" ] |};
  {| name := "TTL & Cache System";
     card_range := (13, 20);
     tasks := [
       "Create TTL namespace creation functionality";
       "Implement lazy expiry on read/write operations";
       "Add `--include-expired` flag";
       "Develop cache configuration management";
       "Design eviction policies";
       "Validate near-SQLite performance benchmarks";
       "Verify memory efficiency";
       "Implement concurrent access testing" ] |};
  {| name := "Security & Auth";
     card_range := (21, 28);
     tasks := [
       "Enforce stream auth preamble";
       "Create user management system";
       "Implement session tokens";
       "Generate and validate API keys";
       "Design configurable security policies";
       "Delegate encryption to system tools";
       "Prevent auth bypass";
       "Implement input validation security";
       "Protect against stream injection" ] |};
  {| name := "Data Management";
     card_range := (29, 35);
     tasks := [
       "Create backup system with optional encryption";
       "Implement TSV import/export";
       "Validate database integrity";
       "Develop migration utilities";
       "Add data compression options";
       "Verify backup restoration";
       "Test large dataset import/export";
       "Create corruption recovery procedures" ] |};
  {| name := "Filesystem Mirror";
     card_range := (36, 42);
     tasks := [
       "Implement `export-fs` directory mapping";
       "Create `import-fs` synchronization";
       "Handle context suffix mapping";
       "Manage file formats (JSON default)";
       "Develop incremental sync capabilities";
       "Ensure `grep`/`rg` compatibility";
       "Integrate file system watch";
       "Design conflict resolution policies" ] |}
].

Record TestsRequired := {
  red_phase : string;
  green_phase : string;
  refactor_phase : string
}.

(** The dict built by [generate_work_card]. The marker ends in a beaver
    emoji, kept here as the bytes of its UTF-8 encoding; no code looks
    inside it. *)
Record WorkCard := {
  card_number : string;
  milestone : string;
  feature_name : string;
  complexity : Z;
  status : string;
  tests_required : TestsRequired;
  dependencies : list string;
  acceptance_criteria : list string;
  treasure_vault : string
}.

Definition generate_work_card
    (milestone : Milestone) (card_number : Z) (task : string) : WorkCard :=
  {| card_number := "CARD_" +:+ format_0d 3 card_number;
     milestone := name milestone;
     feature_name := task;
     complexity := Z.min (Z.max (len task / 5) 1) 10;
     status := "locked";
     tests_required :=
       {| red_phase := "Failing test for " +:+ task;
          green_phase :=
            "Minimal implementation to pass " +:+ task +:+ " test";
          refactor_phase := "Improve code quality for " +:+ task |};
     dependencies := [];
     acceptance_criteria := ["Complete " +:+ task +:+ " with TDD evidence"];
     treasure_vault := "SECURED_BY_BEAVER_🦫" |}.

(** The expression bound to [card_filename] in the loop. *)
Definition card_filename (card : WorkCard) (milestone : Milestone) : string :=
  card_number card +:+ "_"
  +:+ replace " " "_" (lower (name milestone)) +:+ ".yml".

(** The part of the file system the script acts on. [can_open p] tells
    whether [open(p, 'w')] succeeds; it depends on the directories and
    permissions, which the script never changes (it creates no
    directory). [contents] maps the path of each regular file to its
    text. *)
Record Disk := {
  can_open : string → bool;
  contents : gmap string string
}.

(** How a run ends: normally, or with the unhandled [OSError] of a failed
    [open]. *)
Inductive outcome := Completed | Raised.

(** [with open(path, 'w') as f: f.write(text)] *)
Definition write_file (path text : string) (d : Disk) : Disk * outcome :=
  if can_open d path
  then ({| can_open := can_open d;
           contents := <[path := text]> (contents d) |}, Completed)
  else (d, Raised).

Section Run.

(** [os.path.join(fortress_path, "fortress", "work_cards")], fixed by
    the place of the script. *)
Variable work_cards_path : string.

(** [yaml.safe_dump(card, default_flow_style=False)], an opaque
    serializer. *)
Variable safe_dump : WorkCard → string.

(** The body of the inner loop, for one pair of [enumerate]. *)
Definition loop_body (milestone : Milestone) (it : Z * string) (d : Disk)
    : Disk * outcome :=
  let '(idx, task) := it in
  let card := generate_work_card milestone idx task in
  let card_filename := card_filename card milestone in
  let card_filepath := os_path_join work_cards_path card_filename in
  write_file card_filepath (safe_dump card) d.

(** [for idx, task in enumerate(milestone["tasks"], start=start)] *)
Fixpoint inner_loop (milestone : Milestone) (its : list (Z * string))
    (d : Disk) : Disk * outcome :=
  match its with
  | [] => (d, Completed)
  | it :: rest =>
      match loop_body milestone it d with
      | (d', Completed) => inner_loop milestone rest d'
      | (d', Raised) => (d', Raised)
      end
  end.

(** [for milestone in milestones] *)
Fixpoint outer_loop (ms : list Milestone) (d : Disk) : Disk * outcome :=
  match ms with
  | [] => (d, Completed)
  | milestone :: rest =>
      let '(start, end_) := card_range milestone in
      match inner_loop milestone (enumerate (tasks milestone) start) d with
      | (d', Completed) => outer_loop rest d'
      | (d', Raised) => (d', Raised)
      end
  end.

(** The module-level code of the script. *)
Definition main (d : Disk) : Disk * outcome := outer_loop milestones d.

End Run.

(** The cards the loops synthesize, as data: those of one milestone in
    task order, and those of a catalog in catalog order. *)
Definition milestone_cards (m : Milestone) : list WorkCard :=
  (λ it, generate_work_card m it.1 it.2)
    <$> enumerate (tasks m) (card_range m).1.

Definition all_cards (ms : list Milestone) : list WorkCard :=
  List.concat (milestone_cards <$> ms).

(** The files the loops write, as data: path and text, in the order of
    the writes. *)
Definition milestone_writes (work_cards_path : string)
    (safe_dump : WorkCard → string) (m : Milestone)
    : list (string * string) :=
  (λ card, (os_path_join work_cards_path (card_filename card m),
            safe_dump card)) <$> milestone_cards m.

Definition all_writes (work_cards_path : string)
    (safe_dump : WorkCard → string) (ms : list Milestone)
    : list (string * string) :=
  List.concat (milestone_writes work_cards_path safe_dump <$> ms).

End generate_work_cards.

(** ** [zip_milestones.py] *)

Module zip_milestones.
Import PyStr.

(** The 64 characters of the standard Base64 alphabet, by value. *)
Definition b64_alphabet : string :=
  "ABCDEFGHIJKLMNOPQRSTUVWXYZabcdefghijklmnopqrstuvwxyz0123456789+/".

Definition b64_char (i : N) : ascii :=
  default "="%char (String.get (N.to_nat i) b64_alphabet).

(** [base64.b64encode(data)]: every three bytes give four characters,
    six bits each, most significant first; a last group of one or two
    bytes is filled with zero bits and padded with [=]. *)
Fixpoint b64encode (data : list Byte.byte) : string :=
  match data with
  | [] => EmptyString
  | [a] =>
      let n := (Byte.to_N a * 65536)%N in
      String (b64_char (n / 262144)%N)
        (String (b64_char (n / 4096 mod 64)%N) "==")
  | [a; b] =>
      let n := (Byte.to_N a * 65536 + Byte.to_N b * 256)%N in
      String (b64_char (n / 262144)%N)
        (String (b64_char (n / 4096 mod 64)%N)
           (String (b64_char (n / 64 mod 64)%N) "="))
  | a :: b :: c :: rest =>
      let n := (Byte.to_N a * 65536 + Byte.to_N b * 256 + Byte.to_N c)%N in
      String (b64_char (n / 262144)%N)
        (String (b64_char (n / 4096 mod 64)%N)
           (String (b64_char (n / 64 mod 64)%N)
              (String (b64_char (n mod 64)%N) (b64encode rest))))
  end.

(** [base64_encode]: the encoded bytes are ASCII, so [.decode()] gives
    the same characters as a [str]. *)
Definition base64_encode (data : list Byte.byte) : string :=
  b64encode data.

(** An entry of the packaging list: [{"name": .., "card_pattern": ..}]. *)
Record Milestone := {
  name : string;
  card_pattern : string
}.

Definition fortress_path : string :=
  "/home/xnull/repos/code/rust/oodx/prontodb/.dams/fortress".
Definition work_cards_path : string :=
  os_path_join fortress_path "work_cards".
Definition milestone_vaults_path : string :=
  os_path_join fortress_path "milestone_vaults".

Definition milestones : list Milestone := [
  {| name := "MILESTONE_2_CORE_KV_OPS";
     card_pattern := "CARD_00[6-9].yml,CARD_01[0-2].yml" |};
  {| name := "MILESTONE_3_TTL_CACHE";
     card_pattern := "CARD_01[3-9].yml" |};
  {| name := "MILESTONE_4_SECURITY";
     card_pattern := "CARD_02[1-8].yml" |};
  {| name := "MILESTONE_5_DATA_MGMT";
     card_pattern := "CARD_02[9-35].yml" |};
  {| name := "MILESTONE_6_FILESYSTEM_MIRROR";
     card_pattern := "CARD_03[6-42].yml" |}
].

(** The calendar date of a [datetime.datetime.now()]. *)
Record Date := {
  year : N;
  month : N;
  day : N
}.

(** The dates [datetime] can hold in which every platform prints the
    year with four digits. *)
Definition valid_date (d : Date) : Prop :=
  (1000 ≤ year d ≤ 9999 ∧ 1 ≤ month d ≤ 12 ∧ 1 ≤ day d ≤ 31)%N.

(** [d.strftime("%Y%m%d")] *)
Definition strftime_Ymd (d : Date) : string :=
  format_0d 4 (Z.of_N (year d)) +:+ format_0d 2 (Z.of_N (month d))
  +:+ format_0d 2 (Z.of_N (day d)).

(** The clock: [now k] is the date of the run's call number [k] (from 0)
    of [datetime.datetime.now()]. *)
Definition clock := nat → Date.

(** An element of [password_vault]. *)
Record VaultEntry := {
  milestone : string;
  password : string
}.

(** What a regular file holds: text, or a zip archive given by its
    members (archive name and bytes) in the order they were added. *)
Inductive FileData :=
  | Text (text : string)
  | ZipArchive (members : list (string * string)).

Record File := {
  data : FileData;
  mode : Z
}.

(** The part of the operating system the script acts on.
    - [work_cards]: the card directory, [None] when [os.listdir] fails on
      it; otherwise its entries in the order [os.listdir] returns them,
      each with its bytes, or [None] when the entry cannot be read;
    - [makedirs_ok p]: whether [os.makedirs(p, exist_ok=True)] succeeds;
    - [writable p]: whether opening [p] for writing succeeds;
    - [chmod_ok p]: whether [os.chmod] on the file [p] succeeds;
    - [umask]: the file mode creation mask of the process;
    - [files]: the regular files outside the card directory, by path. *)
Record World := {
  work_cards : option (list (string * option string));
  makedirs_ok : string → bool;
  writable : string → bool;
  chmod_ok : string → bool;
  umask : Z;
  files : gmap string File
}.

Definition set_files (fs : gmap string File) (w : World) : World :=
  {| work_cards := work_cards w; makedirs_ok := makedirs_ok w;
     writable := writable w; chmod_ok := chmod_ok w; umask := umask w;
     files := fs |}.

(** Writing a whole file in mode ['w']: a new file gets the mode
    [0o666 & ~umask], an existing file keeps its mode. *)
Definition write_data (path : string) (dt : FileData) (w : World) : World :=
  let m := match files w !! path with
           | Some f => mode f
           | None => Z.land 438 (Z.lnot (umask w))
           end in
  set_files (<[path := {| data := dt; mode := m |}]> (files w)) w.

(** [os.chmod(path, m)] on an existing file. *)
Definition chmod (path : string) (m : Z) (w : World) : World :=
  match files w !! path with
  | Some f => set_files (<[path := {| data := data f; mode := m |}]> (files w)) w
  | None => w
  end.

(** How a statement ends: normally, or with an unhandled [OSError]. *)
Inductive outcome := Completed | Raised.

Inductive result (A : Type) :=
  | Return (a : A)
  | Raise.
Arguments Return {A} a.
Arguments Raise {A}.

(** The condition of the [if] inside the archive loop. *)
Definition selects (milestone : Milestone) (filename : string) : bool :=
  any (λ pattern, contains pattern filename)
      (split "," (card_pattern milestone)).

(** [for filename in os.listdir(work_cards_path)], once the listing is
    there; [zipf] holds the members added so far. *)
Fixpoint add_cards (milestone : Milestone)
    (listing : list (string * option string))
    (zipf : list (string * string)) : list (string * string) * outcome :=
  match listing with
  | [] => (zipf, Completed)
  | (filename, bytes) :: rest =>
      if selects milestone filename then
        match bytes with
        | Some b => add_cards milestone rest (zipf ++ [(filename, b)])
        | None => (zipf, Raised)
        end
      else add_cards milestone rest zipf
  end.

Definition zip_path (milestone : Milestone) : string :=
  let zip_filename := name milestone +:+ ".zip" in
  os_path_join milestone_vaults_path zip_filename.

(** The [with zipfile.ZipFile(zip_path, 'w', ..) as zipf] block. Leaving
    the block closes the archive, also when the body raised, so the file
    then holds the members added until that point. *)
Definition write_archive (milestone : Milestone) (w : World)
    : World * outcome :=
  if writable w (zip_path milestone) then
    let '(zipf, r) :=
      match work_cards w with
      | Some listing => add_cards milestone listing []
      | None => ([], Raised)
      end in
    (write_data (zip_path milestone) (ZipArchive zipf) w, r)
  else (w, Raised).

(** [for milestone in milestones]; [k] counts the calls of the clock. *)
Fixpoint milestone_loop (now : clock) (ms : list Milestone) (k : nat)
    (password_vault : list VaultEntry) (w : World)
    : World * result (list VaultEntry) :=
  match ms with
  | [] => (w, Return password_vault)
  | milestone :: rest =>
      let timestamp := strftime_Ymd (now k) in
      let password :=
        "beaver_dam_" +:+ timestamp +:+ "_" +:+ name milestone in
      match write_archive milestone w with
      | (w', Completed) =>
          milestone_loop now rest (S k)
            (password_vault ++
               [{| milestone := name milestone; password := password |}])
            w'
      | (w', Raised) => (w', Raise)
      end
  end.

Definition zip_milestone_cards (now : clock) (w : World)
    : World * result (list VaultEntry) :=
  if makedirs_ok w milestone_vaults_path
  then milestone_loop now milestones 0 [] w
  else (w, Raise).

Section Vault.

(** [os.environ] *)
Variable environ : gmap string string.

(** The text [json.dump(password_vault, f, indent=2)] writes, an opaque
    serializer. *)
Variable json_dump : list VaultEntry → string.

Definition save_password_vault (password_vault : list VaultEntry)
    (w : World) : World * outcome :=
  let agentic_etc := default "/tmp/agentic_etc" (environ !! "AGENTIC_ETC") in
  if makedirs_ok w agentic_etc then
    let vault_path := os_path_join agentic_etc "beaver_passwords.secure" in
    if writable w vault_path then
      let w1 := write_data vault_path (Text (json_dump password_vault)) w in
      if chmod_ok w1 vault_path
      then (chmod vault_path 384 w1, Completed)
      else (w1, Raised)
    else (w, Raised)
  else (w, Raised).

(** The [if __name__ == "__main__"] block. *)
Definition main (now : clock) (w : World) : World * outcome :=
  match zip_milestone_cards now w with
  | (w', Return password_vault) => save_password_vault password_vault w'
  | (w', Raise) => (w', Raised)
  end.

End Vault.

End zip_milestones.

(** ** Notions used to state the properties *)

(** [p] occurs in [s] as a literal substring. *)
Definition substring_of (p s : string) : Prop :=
  ∃ a b, s = a +:+ p +:+ b.

(** [clamp(x, lo, hi)] *)
Definition clamp (x lo hi : Z) : Z :=
  if x <? lo then lo else if hi <? x then hi else x.

(** The number a string of decimal digits denotes, most significant
    digit first, on top of the digits [acc] already read. *)
Fixpoint value_go (acc : N) (s : string) : N :=
  match s with
  | EmptyString => acc
  | String c r => value_go (10 * acc + (N_of_ascii c - 48)) r
  end.

(** The last character of a string, if it has one. *)
Fixpoint last_char (s : string) : option ascii :=
  match s with
  | EmptyString => None
  | String c EmptyString => Some c
  | String _ r => last_char r
  end.

(** Writing a list of files one after the other, stopping at the first
    [open] that fails. *)
Fixpoint write_all (ws : list (string * string))
    (d : generate_work_cards.Disk)
    : generate_work_cards.Disk * generate_work_cards.outcome :=
  match ws with
  | [] => (d, generate_work_cards.Completed)
  | (path, text) :: rest =>
      match generate_work_cards.write_file path text d with
      | (d', generate_work_cards.Completed) => write_all rest d'
      | (d', generate_work_cards.Raised) => (d', generate_work_cards.Raised)
      end
  end.

(** The writes of a list that are carried out: those before the first
    path that cannot be opened. *)
Fixpoint opened (can : string → bool) (ws : list (string * string))
    : list (string * string) :=
  match ws with
  | [] => []
  | (path, text) :: rest =>
      if can path then (path, text) :: opened can rest else []
  end.

(** The directory contents after a list of writes that all succeed. *)
Definition put_all (ws : list (string * string)) (c : gmap string string)
    : gmap string string :=
  foldl (λ c w, <[w.1 := w.2]> c) c ws.

(** A milestone with another declared end of its card range. *)
Definition with_range_end (e : Z) (m : generate_work_cards.Milestone)
    : generate_work_cards.Milestone :=
  {| generate_work_cards.name := generate_work_cards.name m;
     generate_work_cards.card_range :=
       ((generate_work_cards.card_range m).1, e);
     generate_work_cards.tasks := generate_work_cards.tasks m |}.

(** The number of tasks of the milestones before position [mi]: the
    count of tasks seen when the outer loop reaches that milestone. *)
Definition tasks_before (ms : list generate_work_cards.Milestone)
    (mi : nat) : nat :=
  sum_list (List.length ∘ generate_work_cards.tasks <$> take mi ms).

(** The members an archive gets from a listing whose selected entries
    can all be read: the selected entries, in listing order. *)
Definition selected (m : zip_milestones.Milestone)
    (listing : list (string * option string)) : list (string * string) :=
  omap (λ e, if zip_milestones.selects m e.1
             then (λ b, (e.1, b)) <$> e.2 else None) listing.

(** The vault entry of a milestone whose password is made on date [d]. *)
Definition entry_for (d : zip_milestones.Date)
    (m : zip_milestones.Milestone) : zip_milestones.VaultEntry :=
  {| zip_milestones.milestone := zip_milestones.name m;
     zip_milestones.password :=
       "beaver_dam_" +:+ zip_milestones.strftime_Ymd d +:+ "_"
       +:+ zip_milestones.name m |}.

(** Two results end the same way. *)
Definition same_ending {A} (r1 r2 : zip_milestones.result A) : Prop :=
  match r1, r2 with
  | zip_milestones.Return _, zip_milestones.Return _ => True
  | zip_milestones.Raise, zip_milestones.Raise => True
  | _, _ => False
  end.

(** A card directory with the seven files [CARD_006_x.yml] to
    [CARD_012_x.yml]. *)
Definition seven_cards : list string :=
  ["CARD_006_x.yml"; "CARD_007_x.yml"; "CARD_008_x.yml"; "CARD_009_x.yml";
   "CARD_010_x.yml"; "CARD_011_x.yml"; "CARD_012_x.yml"].

(** A machine on which every system call of the packaging stage
    succeeds, with the usual mask [0o022], the given card directory and
    the given other files. *)
Definition easy_world (cards : option (list (string * option string)))
    (fs : gmap string zip_milestones.File) : zip_milestones.World :=
  {| zip_milestones.work_cards := cards;
     zip_milestones.makedirs_ok := λ _, true;
     zip_milestones.writable := λ _, true;
     zip_milestones.chmod_ok := λ _, true;
     zip_milestones.umask := 18;
     zip_milestones.files := fs |}.

(** A clock that stays on one date. *)
Definition fixed_clock (y m d : N) : zip_milestones.clock :=
  λ _, {| zip_milestones.year := y; zip_milestones.month := m;
          zip_milestones.day := d |}.

(** The part of a card file name that comes from the milestone name:
    [name.lower().replace(' ', '_')]. *)
Definition slug (name : string) : string :=
  PyStr.replace " " "_" (PyStr.lower name).

(** The character [c] occurs in [s]. *)
Definition char_in (c : ascii) (s : string) : Prop :=
  c ∈ list_ascii_of_string s.

(** The path of the file that holds a card of a milestone. *)
Definition card_path (work_cards_path : string)
    (m : generate_work_cards.Milestone) (card : generate_work_cards.WorkCard)
    : string :=
  PyStr.os_path_join work_cards_path (generate_work_cards.card_filename card m).

(** The value of a character of the Base64 alphabet. *)
Fixpoint b64_index_go (c : ascii) (alphabet : string) (i : N) : option N :=
  match alphabet with
  | EmptyString => None
  | String a r => if Ascii.eqb c a then Some i else b64_index_go c r (i + 1)
  end.

Definition b64_index (c : ascii) : option N :=
  b64_index_go c zip_milestones.b64_alphabet 0.

(** A Base64 decoder: four characters give three bytes, and a last group
    with one or two [=] gives two bytes or one. *)
Fixpoint b64decode (s : string) : option (list Byte.byte) :=
  match s with
  | EmptyString => Some []
  | String c1 (String c2 (String c3 (String c4 rest))) =>
      i1 ← b64_index c1;
      i2 ← b64_index c2;
      if Ascii.eqb c3 "=" then
        if Ascii.eqb c4 "=" && bool_decide (rest = "") then
          b1 ← Byte.of_N (i1 * 4 + i2 / 16)%N; Some [b1]
        else None
      else
        i3 ← b64_index c3;
        if Ascii.eqb c4 "=" then
          if bool_decide (rest = "") then
            b1 ← Byte.of_N (i1 * 4 + i2 / 16)%N;
            b2 ← Byte.of_N (i2 mod 16 * 16 + i3 / 4)%N;
            Some [b1; b2]
          else None
        else
          i4 ← b64_index c4;
          b1 ← Byte.of_N (i1 * 4 + i2 / 16)%N;
          b2 ← Byte.of_N (i2 mod 16 * 16 + i3 / 4)%N;
          b3 ← Byte.of_N (i3 mod 4 * 64 + i4)%N;
          bs ← b64decode rest;
          Some (b1 :: b2 :: b3 :: bs)
  | _ => None
  end.

(** * Properties *)

(** ** Strings *)

Section StringFacts.

Lemma string_app_cons (c : ascii) (s t : string) :
  String c s +:+ t = String c (s +:+ t).
Proof. reflexivity. Qed.

Lemma string_app_nil_l (s : string) : "" +:+ s = s.
Proof. reflexivity. Qed.

Lemma string_app_assoc (s t u : string) : (s +:+ t) +:+ u = s +:+ t +:+ u.
Proof.
  induction s as [|c s IH]; [done|]. rewrite !string_app_cons. by f_equal.
Qed.

Lemma string_app_nil_r (s : string) : s +:+ "" = s.
Proof.
  induction s as [|c s IH]; [done|]. rewrite string_app_cons. by f_equal.
Qed.

Lemma string_length_app (s t : string) :
  String.length (s +:+ t) = (String.length s + String.length t)%nat.
Proof.
  induction s as [|c s IH]; [done|]. rewrite string_app_cons. simpl.
  by rewrite IH.
Qed.

Lemma string_app_inj_length (s1 s2 t1 t2 : string) :
  String.length s1 = String.length s2 →
  s1 +:+ t1 = s2 +:+ t2 → s1 = s2 ∧ t1 = t2.
Proof.
  revert s2. induction s1 as [|c s1 IH]; intros [|c' s2] Hlen Heq;
    try done.
  rewrite !string_app_cons in Heq. simplify_eq/=.
  destruct (IH s2) as [-> ->]; done.
Qed.

Lemma prefix_spec (p s : string) :
  String.prefix p s = true ↔ ∃ b, s = p +:+ b.
Proof.
  revert s. induction p as [|c p IH]; intros s; simpl.
  - split; [|by destruct s]. intros _. by exists s.
  - destruct s as [|c' s].
    + split; [done | intros [b ?]; done].
    + setoid_rewrite string_app_cons. simpl.
      destruct (ascii_dec c c') as [->|Hne].
      * rewrite IH. split; intros [b Hb]; exists b; congruence.
      * split; [done | intros [b ?]; congruence].
Qed.

Lemma contains_spec (p s : string) :
  PyStr.contains p s = true ↔ substring_of p s.
Proof.
  unfold substring_of. induction s as [|c s IH].
  - cbn [PyStr.contains]. rewrite orb_false_r, prefix_spec. split.
    + intros [b Hb]. by exists "", b.
    + intros ([|? a] & b & Hab); [|done]. by exists b.
  - cbn [PyStr.contains]. rewrite orb_true_iff, prefix_spec, IH. split.
    + intros [[b Hb] | (a & b & Hab)].
      * by exists "", b.
      * exists (String c a), b. rewrite string_app_cons. by rewrite Hab.
    + intros ([|c' a] & b & Hab).
      * left. by exists b.
      * right. rewrite string_app_cons in Hab. simplify_eq. by exists a, b.
Qed.

Lemma last_char_app (a b : string) :
  b ≠ "" → last_char (a +:+ b) = last_char b.
Proof.
  intros Hb. induction a as [|c a IH]; [done|].
  rewrite string_app_cons. simpl. rewrite IH.
  destruct (a +:+ b) eqn:E; [|done].
  destruct a; [done|]. by rewrite string_app_cons in E.
Qed.

Lemma last_char_join (a b : string) :
  b ≠ "" → last_char (PyStr.os_path_join a b) = last_char b.
Proof.
  intros Hb. unfold PyStr.os_path_join.
  destruct (PyStr.starts_with_sep b); [done|].
  destruct (_ || _); [by apply last_char_app|].
  rewrite last_char_app; [by apply (last_char_app "/")|by destruct b].
Qed.

Lemma substring_of_trans (p q s : string) :
  substring_of p q → substring_of q s → substring_of p s.
Proof.
  intros (a & b & ->) (a' & b' & ->). exists (a' +:+ a), (b +:+ b').
  by rewrite !string_app_assoc.
Qed.

Lemma split_nonempty (sep : ascii) (s : string) : PyStr.split sep s ≠ [].
Proof.
  induction s as [|c s IH]; [done|]. simpl.
  destruct (Ascii.eqb c sep); [done|]. by destruct (PyStr.split sep s).
Qed.

(** Joining the pieces of [split] with the separator gives the string
    back, and no piece holds the separator. *)
Lemma split_join (sep : ascii) (s : string) :
  String.concat (String sep "") (PyStr.split sep s) = s.
Proof.
  induction s as [|c s IH]; [done|]. simpl.
  destruct (Ascii.eqb_spec c sep) as [->|Hne].
  - pose proof (split_nonempty sep s) as Hs.
    destruct (PyStr.split sep s) as [|piece pieces]; [done|].
    cbn [String.concat] in *. by rewrite string_app_nil_l, string_app_cons, IH.
  - destruct (PyStr.split sep s) as [|piece pieces] eqn:E.
    { by apply split_nonempty in E. }
    cbn [String.concat] in *. destruct pieces; [by rewrite IH|].
    by rewrite string_app_cons, IH.
Qed.

Lemma split_pieces (sep : ascii) (s piece : string) :
  piece ∈ PyStr.split sep s → ¬ substring_of (String sep "") piece.
Proof.
  revert piece. induction s as [|c s IH]; intros piece; simpl.
  - intros ->%list_elem_of_singleton ([|] & ? & ?); done.
  - destruct (Ascii.eqb_spec c sep) as [->|Hne].
    + intros [->|Hin]%elem_of_cons; [|by apply IH].
      intros ([|] & ? & ?); done.
    + pose proof (split_nonempty sep s) as Hs.
      destruct (PyStr.split sep s) as [|piece' pieces]; [done|].
      intros [->|Hin]%elem_of_cons.
      * intros ([|c' a] & b & Hab).
        -- rewrite string_app_nil_l, string_app_cons in Hab. congruence.
        -- rewrite string_app_cons in Hab. injection Hab as _ Hab.
           apply (IH piece'); [by left|by exists a, b].
      * apply IH. by right.
Qed.

End StringFacts.

(** ** Decimal formatting *)

Section FormatFacts.

Lemma value_go_pretty (x : N) (s : string) :
  value_go 0 (pretty_N_go x s) = value_go x s.
Proof.
  revert s. induction (N.lt_wf_0 x) as [x _ IH]; intros s.
  destruct (decide (x = 0)%N) as [->|Hx]; [by rewrite pretty_N_go_0|].
  rewrite pretty_N_go_step by lia. rewrite IH by (apply N.div_lt; lia).
  cbn [value_go]. f_equal.
  assert (N_of_ascii (pretty_N_char (x `mod` 10)) - 48 = x `mod` 10)%N as ->.
  { assert (x `mod` 10 < 10)%N as Hlt by (apply N.mod_lt; lia).
    destruct (x `mod` 10)%N as [|q]; [done|].
    do 4 (destruct q as [q|q|]; try done; try lia). }
  pose proof (N.div_mod x 10). lia.
Qed.

Lemma value_go_digits (n : N) : value_go 0 (PyStr.digits n) = n.
Proof.
  unfold PyStr.digits, pretty, pretty_N. case_decide as Hn; [by subst|].
  by rewrite value_go_pretty.
Qed.

Lemma value_go_zeros (k : nat) (s : string) :
  value_go 0 (PyStr.zeros k +:+ s) = value_go 0 s.
Proof. induction k as [|k IH]; [done|]. simpl. apply IH. Qed.

Lemma pretty_go_length (k : nat) (x : N) (s : string) :
  (x < 10 ^ N.of_nat k)%N →
  (String.length (pretty_N_go x s) ≤ String.length s + k)%nat.
Proof.
  revert x s. induction k as [|k IH]; intros x s Hx.
  - assert (x = 0)%N as -> by (simpl in Hx; lia).
    rewrite pretty_N_go_0. lia.
  - destruct (decide (x = 0)%N) as [->|Hx0]; [rewrite pretty_N_go_0; lia|].
    rewrite pretty_N_go_step by lia.
    etrans; [apply IH|simpl; lia].
    rewrite Nat2N.inj_succ, N.pow_succ_r' in Hx.
    apply N.Div0.div_lt_upper_bound. lia.
Qed.

Lemma pretty_go_length_ge (x : N) (s : string) :
  (String.length s ≤ String.length (pretty_N_go x s))%nat.
Proof.
  revert s. induction (N.lt_wf_0 x) as [x _ IH]; intros s.
  destruct (decide (x = 0)%N) as [->|Hx]; [by rewrite pretty_N_go_0|].
  rewrite pretty_N_go_step by lia.
  etrans; [|apply IH; apply N.div_lt; lia]. simpl. lia.
Qed.

Lemma digits_length_pos (n : N) : (1 ≤ String.length (PyStr.digits n))%nat.
Proof.
  unfold PyStr.digits, pretty, pretty_N. case_decide as Hn; [done|].
  rewrite pretty_N_go_step by lia.
  etrans; [|apply pretty_go_length_ge]. simpl. lia.
Qed.

Lemma digits_length_le (k : nat) (n : N) :
  (1 ≤ k)%nat → (n < 10 ^ N.of_nat k)%N →
  (String.length (PyStr.digits n) ≤ k)%nat.
Proof.
  intros Hk Hn. unfold PyStr.digits, pretty, pretty_N.
  case_decide; [simpl; lia|].
  by apply (pretty_go_length k n "").
Qed.

Lemma digits_no_dash (n : N) (r : string) : PyStr.digits n ≠ String "-" r.
Proof.
  unfold PyStr.digits, pretty, pretty_N. case_decide; [done|].
  by apply (pretty_N_go_ne_dash n "" r).
Qed.

Lemma zeros_length (k : nat) : String.length (PyStr.zeros k) = k.
Proof. induction k; simpl; congruence. Qed.

Lemma padded_no_dash (k : nat) (n : N) (r : string) :
  PyStr.zeros k +:+ PyStr.digits n ≠ String "-" r.
Proof. destruct k; [apply digits_no_dash | done]. Qed.

Lemma padded_inj (k k' : nat) (n n' : N) :
  PyStr.zeros k +:+ PyStr.digits n = PyStr.zeros k' +:+ PyStr.digits n' →
  n = n'.
Proof.
  intros H. apply (f_equal (value_go 0)) in H.
  by rewrite !value_go_zeros, !value_go_digits in H.
Qed.

Lemma format_0d_inj (w : nat) (a b : Z) :
  PyStr.format_0d w a = PyStr.format_0d w b → a = b.
Proof.
  unfold PyStr.format_0d.
  destruct (Z.ltb_spec a 0) as [Ha|Ha], (Z.ltb_spec b 0) as [Hb|Hb];
    intros H.
  - injection H as H. apply padded_inj in H. lia.
  - symmetry in H. by apply padded_no_dash in H.
  - by apply padded_no_dash in H.
  - apply padded_inj in H. lia.
Qed.

Lemma format_0d_length (w : nat) (n : N) :
  (1 ≤ w)%nat → (n < 10 ^ N.of_nat w)%N →
  String.length (PyStr.format_0d w (Z.of_N n)) = w.
Proof.
  intros Hw Hn. unfold PyStr.format_0d.
  destruct (Z.ltb_spec (Z.of_N n) 0) as [Hneg|_]; [lia|].
  rewrite string_length_app, zeros_length.
  replace (Z.abs_N (Z.of_N n)) with n by lia.
  pose proof (digits_length_le w n Hw Hn). lia.
Qed.

End FormatFacts.

(** ** The string operations on examples *)

Example lower_ex : PyStr.lower "TDD Foundation" = "tdd foundation".
Proof. reflexivity. Qed.

Example split_ex :
  PyStr.split "," "CARD_00[6-9].yml,CARD_01[0-2].yml"
  = ["CARD_00[6-9].yml"; "CARD_01[0-2].yml"].
Proof. reflexivity. Qed.

Example split_empty_ex : PyStr.split "," ",a," = [""; "a"; ""].
Proof. reflexivity. Qed.

Example format_ex :
  PyStr.format_0d 3 7 = "007" ∧ PyStr.format_0d 3 (-5) = "-05"
  ∧ PyStr.format_0d 3 1234 = "1234" ∧ PyStr.format_0d 3 0 = "000".
Proof. vm_compute. done. Qed.

Example join_ex :
  PyStr.os_path_join "/tmp/agentic_etc" "beaver_passwords.secure"
  = "/tmp/agentic_etc/beaver_passwords.secure"
  ∧ PyStr.os_path_join "/tmp/" "x" = "/tmp/x"
  ∧ PyStr.os_path_join "" "x" = "x".
Proof. vm_compute. done. Qed.

(** ** The generation stage *)

Module generate_work_cards_facts.
Import PyStr generate_work_cards.

Lemma enumerate_lookup {A} (l : list A) (start : Z) (i : nat) :
  enumerate l start !! i = (λ x, (start + Z.of_nat i, x)) <$> l !! i.
Proof.
  revert start i. induction l as [|x l IH]; intros start [|i]; simpl;
    try done.
  - do 2 f_equal. lia.
  - rewrite IH. destruct (l !! i); simpl; [|done]. do 2 f_equal. lia.
Qed.

Lemma enumerate_length {A} (l : list A) (start : Z) :
  List.length (enumerate l start) = List.length l.
Proof. revert start. induction l; intros; simpl; auto. Qed.

Lemma enumerate_fst {A} (l : list A) (start : Z) :
  fst <$> enumerate l start = seqZ start (Z.of_nat (List.length l)).
Proof.
  apply list_eq. intros i. rewrite list_lookup_fmap, enumerate_lookup.
  destruct (l !! i) as [x|] eqn:E; simpl.
  - symmetry. apply lookup_seqZ_lt. apply lookup_lt_Some in E. lia.
  - symmetry. apply lookup_seqZ_ge. apply lookup_ge_None in E. lia.
Qed.

Lemma milestone_cards_lookup (m : Milestone) (i : nat) :
  milestone_cards m !! i
  = generate_work_card m ((card_range m).1 + Z.of_nat i) <$> tasks m !! i.
Proof.
  unfold milestone_cards. rewrite list_lookup_fmap, enumerate_lookup.
  by destruct (tasks m !! i).
Qed.

Lemma milestone_cards_length (m : Milestone) :
  List.length (milestone_cards m) = List.length (tasks m).
Proof. unfold milestone_cards. by rewrite length_fmap, enumerate_length. Qed.

Lemma all_cards_length (ms : list Milestone) :
  List.length (all_cards ms) = sum_list (List.length ∘ tasks <$> ms).
Proof.
  unfold all_cards. induction ms as [|m ms IH]; [done|].
  cbn [fmap list_fmap List.concat sum_list sum_list_with].
  rewrite List.length_app, milestone_cards_length. simpl. by rewrite IH.
Qed.

Lemma all_cards_lookup (ms : list Milestone) (mi i : nat) (m : Milestone)
    (card : WorkCard) :
  ms !! mi = Some m → milestone_cards m !! i = Some card →
  all_cards ms !! (tasks_before ms mi + i)%nat = Some card.
Proof.
  unfold all_cards, tasks_before. revert mi.
  induction ms as [|m0 ms IH]; intros [|mi] Hm Hc; simplify_eq/=.
  - by apply lookup_app_l_Some.
  - rewrite lookup_app_r by (rewrite milestone_cards_length; lia).
    rewrite milestone_cards_length.
    replace (_ + _ + i - _)%nat
      with (sum_list (List.length ∘ tasks <$> take mi ms) + i)%nat by lia.
    by apply IH.
Qed.

Lemma all_writes_length (path : string) (dump : WorkCard → string)
    (ms : list Milestone) :
  List.length (all_writes path dump ms)
  = sum_list (List.length ∘ tasks <$> ms).
Proof.
  unfold all_writes. induction ms as [|m ms IH]; [done|].
  cbn [fmap list_fmap List.concat sum_list sum_list_with].
  unfold milestone_writes at 1.
  rewrite List.length_app, length_fmap, milestone_cards_length. simpl.
  by rewrite IH.
Qed.

Lemma all_cards_elem (ms : list Milestone) (card : WorkCard) :
  card ∈ all_cards ms →
  ∃ m i task, m ∈ ms ∧ tasks m !! i = Some task
    ∧ card = generate_work_card m ((card_range m).1 + Z.of_nat i) task.
Proof.
  unfold all_cards. induction ms as [|m ms IH]; simpl.
  - by intros ?%elem_of_nil.
  - intros [Hin|Hin]%elem_of_app.
    + apply list_elem_of_lookup in Hin as [i Hi].
      rewrite milestone_cards_lookup in Hi.
      destruct (tasks m !! i) as [task|] eqn:E; simplify_eq/=.
      exists m, i, task. split; [left|done].
    + destruct (IH Hin) as (m' & i & task & ? & ? & ?).
      exists m', i, task. split; [by right|done].
Qed.

(** *** Writes of the loops *)

Lemma write_all_app (ws1 ws2 : list (string * string)) (d : Disk) :
  write_all (ws1 ++ ws2) d
  = match write_all ws1 d with
    | (d', Completed) => write_all ws2 d'
    | (d', Raised) => (d', Raised)
    end.
Proof.
  revert d. induction ws1 as [|[path text] ws1 IH]; intros d; simpl;
    [done|].
  destruct (write_file path text d) as [d' []]; [apply IH|done].
Qed.

Lemma inner_loop_writes (path : string) (dump : WorkCard → string)
    (m : Milestone) (its : list (Z * string)) (d : Disk) :
  inner_loop path dump m its d
  = write_all
      ((λ card, (os_path_join path (card_filename card m), dump card))
         <$> ((λ it, generate_work_card m it.1 it.2) <$> its)) d.
Proof.
  revert d. induction its as [|[idx task] its IH]; intros d; simpl;
    [done|].
  destruct (write_file _ _ d) as [d' []]; [apply IH|done].
Qed.

Lemma outer_loop_writes (path : string) (dump : WorkCard → string)
    (ms : list Milestone) (d : Disk) :
  outer_loop path dump ms d = write_all (all_writes path dump ms) d.
Proof.
  unfold all_writes. revert d. induction ms as [|m ms IH]; intros d;
    [done|].
  cbn [outer_loop fmap list_fmap List.concat].
  destruct (card_range m) as [start end_] eqn:Hr.
  rewrite write_all_app, inner_loop_writes.
  unfold milestone_writes, milestone_cards. rewrite Hr. simpl.
  destruct (write_all _ d) as [d' []]; [apply IH|done].
Qed.

Lemma write_all_spec (ws : list (string * string)) (d : Disk) :
  write_all ws d
  = ({| can_open := can_open d;
        contents := put_all (opened (can_open d) ws) (contents d) |},
     if forallb (λ w, can_open d w.1) ws then Completed else Raised).
Proof.
  revert d. induction ws as [|[path text] ws IH]; intros d.
  - by destruct d.
  - cbn [write_all opened forallb]. unfold write_file. simpl.
    destruct (can_open d path) eqn:E; [|by destruct d].
    by rewrite IH.
Qed.

Lemma put_all_union (ws : list (string * string)) (c : gmap string string) :
  put_all ws c = put_all ws ∅ ∪ c.
Proof.
  unfold put_all. induction ws as [|[path text] ws IH] using rev_ind.
  - simpl. by rewrite (left_id_L ∅ (∪)).
  - rewrite !foldl_snoc, IH. simpl. by rewrite insert_union_l.
Qed.

Lemma put_all_twice (ws : list (string * string)) (c : gmap string string) :
  put_all ws (put_all ws c) = put_all ws c.
Proof.
  rewrite (put_all_union ws c), (put_all_union ws (_ ∪ _)).
  by rewrite (assoc_L (∪)), (idemp_L (∪)).
Qed.

Lemma write_all_twice (ws : list (string * string)) (d : Disk) :
  write_all ws (write_all ws d).1 = write_all ws d.
Proof. rewrite !write_all_spec. simpl. by rewrite put_all_twice. Qed.

(** *** Card numbers *)

Lemma card_numbers_of_milestone (m : Milestone) :
  card_number <$> milestone_cards m
  = (λ n, "CARD_" +:+ format_0d 3 n)
      <$> seqZ (card_range m).1 (Z.of_nat (List.length (tasks m))).
Proof.
  rewrite <-enumerate_fst. unfold milestone_cards.
  rewrite <-!list_fmap_compose. by apply list_fmap_ext.
Qed.

#[local] Instance card_tag_inj : Inj (=) (=) (λ n, "CARD_" +:+ format_0d 3 n).
Proof. intros a b H. simplify_eq/=. by apply format_0d_inj in H. Qed.

(** C1 as stated (one counter across all milestones, no number given
    twice) does not hold on the catalog of the script: the fourteenth
    task overall, which is the first task of the second milestone, gets
    the number 6, not 14, and the number 6 is given twice. *)
Lemma global_counter_refuted :
  ¬ (∀ (k : nat) (card : WorkCard),
       all_cards milestones !! k = Some card →
       card_number card = "CARD_" +:+ format_0d 3 (Z.of_nat k + 1))
  ∧ ¬ NoDup (card_number <$> all_cards milestones).
Proof.
  split.
  - intros H.
    specialize (H 13%nat
      (generate_work_card
         {| name := "Core KV Operations"; card_range := (6, 12); tasks := [] |}
         6 "Implement core KV commands (set, get, del, keys, scan)")).
    vm_compute in H. by specialize (H eq_refl).
  - intros H. pose proof (proj1 (NoDup_alt _) H) as H'. clear H.
    rename H' into H. specialize (H 5%nat 13%nat "CARD_006").
    vm_compute in H. by specialize (H eq_refl eq_refl).
Qed.

(** C1, amended. The card of the task at index [i] (from 0) of a
    milestone carries the number [start + i], where [start] is the first
    component of the milestone's declared range: the count restarts at
    every milestone and there is no counter across milestones. It is the
    card at place [tasks_before ms mi + i] of the whole run, and within
    one milestone no two cards share a number. *)
Theorem card_number_from_declared_start (ms : list Milestone) (mi i : nat)
    (m : Milestone) (task : string) :
  ms !! mi = Some m → tasks m !! i = Some task →
  ∃ card,
    milestone_cards m !! i = Some card
    ∧ all_cards ms !! (tasks_before ms mi + i)%nat = Some card
    ∧ card_number card
      = "CARD_" +:+ format_0d 3 ((card_range m).1 + Z.of_nat i)
    ∧ NoDup (card_number <$> milestone_cards m).
Proof.
  intros Hm Ht.
  assert (milestone_cards m !! i
          = Some (generate_work_card m ((card_range m).1 + Z.of_nat i) task))
    as Hc by (by rewrite milestone_cards_lookup, Ht).
  eexists. split; [exact Hc|]. split; [by eapply all_cards_lookup|].
  split; [done|].
  rewrite card_numbers_of_milestone.
  apply (NoDup_fmap_2 _), NoDup_seqZ.
Qed.

Lemma card_number_from_declared_start_witness :
  milestones !! 1%nat
    = Some {| name := "Core KV Operations"; card_range := (6, 12);
              tasks := [
                "Implement core KV commands (set, get, del, keys, scan)";
                "Develop namespace management";
                "Create basic auth system";
                "Implement stream processing with meta-directives";
                "Define exit code standards";
                "Ensure TDD for each new function";
                "Implement RSB string-first patterns";
                "Add comprehensive error handling";
                "Develop integration test coverage" ] |}
  ∧ ∃ card,
      all_cards milestones !! 15%nat = Some card
      ∧ card_number card = "CARD_008".
Proof.
  split; [reflexivity|].
  destruct (card_number_from_declared_start milestones 1 2
              {| name := "Core KV Operations"; card_range := (6, 12);
                 tasks := [
                   "Implement core KV commands (set, get, del, keys, scan)";
                   "Develop namespace management";
                   "Create basic auth system";
                   "Implement stream processing with meta-directives";
                   "Define exit code standards";
                   "Ensure TDD for each new function";
                   "Implement RSB string-first patterns";
                   "Add comprehensive error handling";
                   "Develop integration test coverage" ] |}
              "Create basic auth system" eq_refl eq_refl)
    as (card & _ & Hall & Hnum & _).
  exists card. split; [exact Hall | exact Hnum].
Defined.

(** *** Complexity *)

Lemma complexity_of_task (m : Milestone) (n : Z) (task : string) :
  complexity (generate_work_card m n task) = clamp (len task / 5) 1 10.
Proof.
  unfold clamp. simpl.
  destruct (Z.ltb_spec (len task / 5) 1), (Z.ltb_spec 10 (len task / 5));
    lia.
Qed.

(** C3. Every generated card has the complexity
    [clamp(len(feature_name) // 5, 1, 10)], hence an integer from 1 to
    10; a task of at most 4 characters (the empty one included) gives 1
    and a task of 50 characters gives 10. *)
Theorem complexity_clamped (ms : list Milestone) (k : nat) (card : WorkCard) :
  all_cards ms !! k = Some card →
  complexity card = clamp (len (feature_name card) / 5) 1 10
  ∧ 1 ≤ complexity card ≤ 10
  ∧ (len (feature_name card) ≤ 4 → complexity card = 1)
  ∧ (len (feature_name card) = 50 → complexity card = 10).
Proof.
  intros Hk. apply list_elem_of_lookup_2, all_cards_elem in Hk
    as (m & i & task & _ & _ & ->).
  rewrite complexity_of_task. cbn [feature_name generate_work_card].
  assert (0 ≤ len task) by (unfold len; lia).
  unfold clamp. repeat split.
  - destruct (Z.ltb_spec (len task / 5) 1), (Z.ltb_spec 10 (len task / 5));
      lia.
  - destruct (Z.ltb_spec (len task / 5) 1), (Z.ltb_spec 10 (len task / 5));
      lia.
  - intros Hle. assert (len task / 5 = 0) as -> by (apply Z.div_small; lia).
    done.
  - intros ->. done.
Qed.

Lemma complexity_clamped_witness :
  let card :=
    generate_work_card
      {| name := "M"; card_range := (1, 3);
         tasks := ["abcd"; "";
                   "01234567890123456789012345678901234567890123456789"] |}
      3 "01234567890123456789012345678901234567890123456789" in
  all_cards
    [{| name := "M"; card_range := (1, 3);
        tasks := ["abcd"; "";
                  "01234567890123456789012345678901234567890123456789"] |}]
    !! 2%nat = Some card
  ∧ complexity card = 10.
Proof.
  intros card. split; [reflexivity|].
  apply (complexity_clamped
           [{| name := "M"; card_range := (1, 3);
               tasks := ["abcd"; "";
                 "01234567890123456789012345678901234567890123456789"] |}]
           2 card eq_refl).
  reflexivity.
Defined.

(** *** Declared ranges *)

Lemma with_range_end_cards (e : Z) (m : Milestone) :
  milestone_cards (with_range_end e m) = milestone_cards m.
Proof. reflexivity. Qed.

(** C5. When the number of tasks of a milestone equals
    [end - start + 1] for its declared range [(start, end)], every card of
    the milestone has a number from [start] to [end]. The stage never
    looks at [end]: with any other declared ends it performs the same
    writes, so nothing checks the precondition. *)
Theorem card_number_within_consistent_range (m : Milestone) (i : nat)
    (card : WorkCard) :
  Z.of_nat (List.length (tasks m)) = (card_range m).2 - (card_range m).1 + 1 →
  milestone_cards m !! i = Some card →
  (∃ n, card_number card = "CARD_" +:+ format_0d 3 n
        ∧ (card_range m).1 ≤ n ≤ (card_range m).2)
  ∧ (∀ (path : string) (dump : WorkCard → string) (e : Milestone → Z)
       (ms : list Milestone) (d : Disk),
       outer_loop path dump ((λ m', with_range_end (e m') m') <$> ms) d
       = outer_loop path dump ms d).
Proof.
  intros Hlen Hc. split.
  - rewrite milestone_cards_lookup in Hc.
    destruct (tasks m !! i) as [task|] eqn:E; simplify_eq/=.
    apply lookup_lt_Some in E.
    exists ((card_range m).1 + Z.of_nat i). split; [done|lia].
  - intros path dump e ms d. rewrite !outer_loop_writes. f_equal.
    unfold all_writes. f_equal. rewrite <-list_fmap_compose.
    by apply list_fmap_ext.
Qed.

Lemma card_number_within_consistent_range_witness :
  let m := {| name := "TTL & Cache System"; card_range := (13, 20);
              tasks := [
                "Create TTL namespace creation functionality";
                "Implement lazy expiry on read/write operations";
                "Add `--include-expired` flag";
                "Develop cache configuration management";
                "Design eviction policies";
                "Validate near-SQLite performance benchmarks";
                "Verify memory efficiency";
                "Implement concurrent access testing" ] |} in
  milestones !! 2%nat = Some m
  ∧ ∃ n, card_number (generate_work_card m 20
                        "Implement concurrent access testing")
         = "CARD_" +:+ format_0d 3 n ∧ 13 ≤ n ≤ 20.
Proof.
  intros m. split; [reflexivity|].
  apply (card_number_within_consistent_range m 7
           (generate_work_card m 20 "Implement concurrent access testing")
           eq_refl eq_refl).
Defined.

(** The catalog of the script is not consistent, and is processed all the
    same: its first milestone declares the range [(1, 8)] and has a card
    numbered 13. *)
Example inconsistent_range_accepted :
  ∃ m card, milestones !! 0%nat = Some m ∧ card_range m = (1, 8)
    ∧ milestone_cards m !! 12%nat = Some card
    ∧ card_number card = "CARD_013".
Proof. do 2 eexists. repeat split; reflexivity. Qed.

(** *** Files *)

Lemma opened_all (can : string → bool) (ws : list (string * string)) :
  forallb (λ w, can w.1) ws = true → opened can ws = ws.
Proof.
  induction ws as [|[path text] ws IH]; [done|]. simpl.
  intros [-> ?]%andb_true_iff. by rewrite IH.
Qed.

(** C7. A run synthesizes as many cards, and performs as many file
    writes, as the task lists of the catalog have entries together; the
    declared card ranges play no part. The writes are those of
    [all_writes], and a run that completes has carried out all of them. *)
Theorem card_count_is_task_count (path : string) (dump : WorkCard → string)
    (ms : list Milestone) (d : Disk) :
  List.length (all_cards ms) = sum_list (List.length ∘ tasks <$> ms)
  ∧ List.length (all_writes path dump ms)
    = sum_list (List.length ∘ tasks <$> ms)
  ∧ outer_loop path dump ms d = write_all (all_writes path dump ms) d
  ∧ ((outer_loop path dump ms d).2 = Completed →
     contents (outer_loop path dump ms d).1
     = put_all (all_writes path dump ms) (contents d)).
Proof.
  split; [apply all_cards_length|]. split; [apply all_writes_length|].
  split; [apply outer_loop_writes|].
  rewrite outer_loop_writes, write_all_spec. simpl.
  destruct (forallb _ _) eqn:E; [|done]. intros _. by rewrite opened_all.
Qed.

Lemma card_count_is_task_count_witness :
  (outer_loop "/w" (λ _, "") milestones
     {| can_open := λ _, true; contents := ∅ |}).2 = Completed
  ∧ List.length (all_writes "/w" (λ _, "") milestones) = 55%nat.
Proof.
  split; [by vm_compute|].
  etrans;
    [apply (card_count_is_task_count "/w" (λ _, "") milestones
              {| can_open := λ _, true; contents := ∅ |})|].
  reflexivity.
Defined.

(** The catalog of the script gives 55 cards, written to 55 different
    files. *)
Example shipped_catalog_counts :
  List.length (all_cards milestones) = 55%nat
  ∧ NoDup (all_writes "/w" (λ _, "") milestones).*1.
Proof.
  split; [reflexivity|]. apply (bool_decide_unpack _). by vm_compute.
Qed.

(** C6. The file name of a card is a function of the card number and the
    milestone name alone: the tag [CARD_] with the number zero-padded to
    three digits, an underscore, the name in lower case with spaces
    turned into underscores, and [.yml]. Running the stage again on the
    directory it has just produced changes nothing: same files, same
    texts, same outcome. *)
Theorem card_filename_pure_rerun_idempotent (path : string)
    (dump : WorkCard → string) (ms : list Milestone) (d : Disk)
    (m : Milestone) (n : Z) (task : string) :
  card_filename (generate_work_card m n task) m
    = "CARD_" +:+ format_0d 3 n +:+ "_"
      +:+ replace " " "_" (lower (name m)) +:+ ".yml"
  ∧ (∀ m' task', name m' = name m →
       card_filename (generate_work_card m' n task') m'
       = card_filename (generate_work_card m n task) m)
  ∧ (0 ≤ n ≤ 999 → String.length (format_0d 3 n) = 3%nat)
  ∧ outer_loop path dump ms (outer_loop path dump ms d).1
    = outer_loop path dump ms d
  ∧ main path dump (main path dump d).1 = main path dump d.
Proof.
  split; [|split; [|split; [|split]]].
  - unfold card_filename. cbn [card_number generate_work_card].
    by rewrite string_app_assoc.
  - intros m' task' Hname. unfold card_filename.
    cbn [card_number generate_work_card]. by rewrite Hname.
  - intros Hn. replace n with (Z.of_N (Z.to_N n)) by lia.
    apply format_0d_length; [lia|]. simpl. lia.
  - rewrite !outer_loop_writes. apply write_all_twice.
  - unfold main. rewrite !outer_loop_writes. apply write_all_twice.
Qed.

End generate_work_cards_facts.

(** ** The packaging stage *)

Module zip_milestones_facts.
Import PyStr zip_milestones.

(** *** Selection *)

Lemma selects_spec (m : Milestone) (filename : string) :
  selects m filename = true
  ↔ ∃ pattern, pattern ∈ split "," (card_pattern m)
               ∧ substring_of pattern filename.
Proof.
  unfold selects, any. rewrite existsb_exists.
  split; intros (pattern & Hin & Hsub); exists pattern.
  - by rewrite list_elem_of_In, <-contains_spec.
  - by rewrite <-list_elem_of_In, contains_spec.
Qed.

(** A pattern whose pieces all hold a bracket selects no file name
    without one. *)
Lemma bracket_patterns_inert (m : Milestone) (filename : string) :
  (∀ piece, piece ∈ split "," (card_pattern m) → substring_of "[" piece) →
  ¬ substring_of "[" filename → selects m filename = false.
Proof.
  intros Hpieces Hname. apply not_true_is_false.
  intros (piece & Hin & Hsub)%selects_spec.
  apply Hname. eapply substring_of_trans; [by apply Hpieces|done].
Qed.

Lemma add_cards_completed (m : Milestone)
    (listing : list (string * option string))
    (zipf zipf' : list (string * string)) :
  add_cards m listing zipf = (zipf', Completed) →
  zipf' = (zipf ++ selected m listing)%list.
Proof.
  unfold selected. revert zipf.
  induction listing as [|[filename bytes] listing IH]; intros zipf H.
  - simplify_eq/=. by rewrite app_nil_r.
  - cbn [add_cards omap list_omap] in *. simpl.
    destruct (selects m filename); [|by apply IH].
    destruct bytes as [b|]; [|done]. simpl.
    apply IH in H. by rewrite <-app_assoc in H.
Qed.

Lemma add_cards_readable (m : Milestone)
    (listing : list (string * option string))
    (zipf zipf' : list (string * string)) (filename : string)
    (bytes : option string) :
  add_cards m listing zipf = (zipf', Completed) →
  (filename, bytes) ∈ listing → selects m filename = true →
  is_Some bytes.
Proof.
  revert zipf. induction listing as [|[fn ob] listing IH]; intros zipf H Hin.
  - by apply elem_of_nil in Hin.
  - cbn [add_cards] in H. apply elem_of_cons in Hin as [[= <- <-]|Hin].
    + intros Hsel. rewrite Hsel in H. by destruct bytes.
    + destruct (selects m fn); [|by eapply IH].
      destruct ob; [by eapply IH|done].
Qed.

Lemma selected_names (m : Milestone)
    (listing : list (string * option string)) (filename : string) :
  filename ∈ (selected m listing).*1
  ↔ selects m filename = true
    ∧ ∃ b, (filename, Some b) ∈ listing.
Proof.
  unfold selected. rewrite list_elem_of_fmap. split.
  - intros ([fn b] & -> & Hin). apply list_elem_of_omap in Hin
      as ([fn' ob] & Hin & Hsel). simpl in *.
    destruct (selects m fn') eqn:E; [|done].
    destruct ob as [b'|]; simplify_eq/=. eauto.
  - intros (Hsel & b & Hin). exists (filename, b). split; [done|].
    apply list_elem_of_omap. exists (filename, Some b). split; [done|].
    simpl. by rewrite Hsel.
Qed.

(** *** The loop over the milestones *)

Lemma write_archive_frame (m : Milestone) (w w' : World) (r : outcome)
    (p : string) :
  write_archive m w = (w', r) → p ≠ zip_path m →
  files w' !! p = files w !! p.
Proof.
  unfold write_archive. destruct (writable w (zip_path m)).
  - destruct (match work_cards w with Some _ => _ | None => _ end)
      as [zipf r']. intros [= <- <-] Hp. simpl.
    by rewrite lookup_insert_ne.
  - by intros [= <- <-].
Qed.

Lemma write_archive_env (m : Milestone) (w w' : World) (r : outcome) :
  write_archive m w = (w', r) →
  work_cards w' = work_cards w ∧ makedirs_ok w' = makedirs_ok w
  ∧ writable w' = writable w ∧ chmod_ok w' = chmod_ok w
  ∧ umask w' = umask w.
Proof.
  unfold write_archive. destruct (writable w (zip_path m)).
  - destruct (match work_cards w with Some _ => _ | None => _ end)
      as [zipf r']. by intros [= <- <-].
  - by intros [= <- <-].
Qed.

Lemma write_archive_completed (m : Milestone) (w w' : World) :
  write_archive m w = (w', Completed) →
  ∃ listing md,
    work_cards w = Some listing
    ∧ files w' !! zip_path m
      = Some {| data := ZipArchive (selected m listing); mode := md |}
    ∧ (∀ filename bytes, (filename, bytes) ∈ listing →
         selects m filename = true → is_Some bytes).
Proof.
  unfold write_archive. destruct (writable w (zip_path m)); [|done].
  destruct (work_cards w) as [listing|]; [|done].
  destruct (add_cards m listing []) as [zipf r] eqn:E.
  intros [= <- ->]. pose proof (add_cards_completed _ _ _ _ E) as Hz.
  simpl in Hz. subst zipf. eexists _, _. split; [done|]. split.
  - simpl. by rewrite lookup_insert_eq.
  - intros filename bytes. by eapply add_cards_readable.
Qed.

Lemma milestone_loop_frame (now : clock) (ms : list Milestone) (k : nat)
    (v : list VaultEntry) (w w' : World) (r : result (list VaultEntry))
    (p : string) :
  milestone_loop now ms k v w = (w', r) → p ∉ zip_path <$> ms →
  files w' !! p = files w !! p.
Proof.
  revert k v w. induction ms as [|m ms IH]; intros k v w H Hp.
  - by simplify_eq/=.
  - cbn [milestone_loop] in H. rewrite fmap_cons, not_elem_of_cons in Hp.
    destruct Hp as [Hp1 Hp2].
    destruct (write_archive m w) as [w1 []] eqn:E.
    + erewrite IH; [|done..]. by eapply write_archive_frame.
    + simplify_eq. by eapply write_archive_frame.
Qed.

Lemma milestone_loop_env (now : clock) (ms : list Milestone) (k : nat)
    (v : list VaultEntry) (w w' : World) (r : result (list VaultEntry)) :
  milestone_loop now ms k v w = (w', r) →
  work_cards w' = work_cards w ∧ makedirs_ok w' = makedirs_ok w
  ∧ writable w' = writable w ∧ chmod_ok w' = chmod_ok w
  ∧ umask w' = umask w.
Proof.
  revert k v w. induction ms as [|m ms IH]; intros k v w H.
  - by simplify_eq/=.
  - cbn [milestone_loop] in H.
    destruct (write_archive m w) as [w1 []] eqn:E.
    + apply IH in H. apply write_archive_env in E.
      destruct H as (?&?&?&?&?), E as (?&?&?&?&?).
      repeat split; congruence.
    + simplify_eq. by eapply write_archive_env.
Qed.

Lemma milestone_loop_archive (now : clock) (ms : list Milestone) (k : nat)
    (v vault : list VaultEntry) (w w' : World) (m : Milestone) :
  milestone_loop now ms k v w = (w', Return vault) →
  NoDup (zip_path <$> ms) → m ∈ ms →
  ∃ listing md,
    work_cards w = Some listing
    ∧ files w' !! zip_path m
      = Some {| data := ZipArchive (selected m listing); mode := md |}
    ∧ (∀ filename bytes, (filename, bytes) ∈ listing →
         selects m filename = true → is_Some bytes).
Proof.
  revert k v w. induction ms as [|m0 ms IH]; intros k v w H Hnd Hin.
  - by apply elem_of_nil in Hin.
  - cbn [milestone_loop] in H. rewrite fmap_cons in Hnd.
    apply NoDup_cons in Hnd as [Hfresh Hnd].
    destruct (write_archive m0 w) as [w1 []] eqn:E; [|done].
    apply elem_of_cons in Hin as [->|Hin].
    + apply write_archive_completed in E as (listing & md & Hl & Hf & Hr).
      exists listing, md. split; [done|]. split; [|done].
      by erewrite milestone_loop_frame.
    + destruct (IH _ _ _ H Hnd Hin) as (listing & md & Hl & Hf & Hr).
      apply write_archive_env in E as (Hwc & _).
      exists listing, md. split; [congruence|done].
Qed.

Lemma milestone_loop_vault (now : clock) (ms : list Milestone) (k : nat)
    (v vault : list VaultEntry) (w w' : World) :
  milestone_loop now ms k v w = (w', Return vault) →
  vault = (v ++ imap (λ j m, entry_for (now (k + j)%nat) m) ms)%list.
Proof.
  revert k v w. induction ms as [|m ms IH]; intros k v w H.
  - simplify_eq/=. by rewrite app_nil_r.
  - cbn [milestone_loop] in H.
    destruct (write_archive m w) as [w1 []] eqn:E; [|done].
    apply IH in H. rewrite H, <-app_assoc. simpl. f_equal. f_equal.
    + unfold entry_for. by rewrite Nat.add_0_r.
    + apply imap_ext. intros j m' _. simpl. do 2 f_equal. lia.
Qed.

Lemma milestone_loop_clock (now1 now2 : clock) (ms : list Milestone)
    (k1 k2 : nat) (v1 v2 : list VaultEntry) (w : World) :
  (milestone_loop now1 ms k1 v1 w).1 = (milestone_loop now2 ms k2 v2 w).1
  ∧ same_ending (milestone_loop now1 ms k1 v1 w).2
                (milestone_loop now2 ms k2 v2 w).2.
Proof.
  revert k1 k2 v1 v2 w. induction ms as [|m ms IH]; intros k1 k2 v1 v2 w.
  - done.
  - cbn [milestone_loop].
    destruct (write_archive m w) as [w1 []]; [apply IH|done].
Qed.

Lemma zip_milestone_cards_clock (now1 now2 : clock) (w : World) :
  (zip_milestone_cards now1 w).1 = (zip_milestone_cards now2 w).1
  ∧ same_ending (zip_milestone_cards now1 w).2
                (zip_milestone_cards now2 w).2.
Proof.
  unfold zip_milestone_cards.
  destruct (makedirs_ok w _); [apply milestone_loop_clock|done].
Qed.

Lemma zip_milestone_cards_listing (now : clock) (w w' : World)
    (r : result (list VaultEntry)) :
  zip_milestone_cards now w = (w', r) → work_cards w' = work_cards w.
Proof.
  unfold zip_milestone_cards. destruct (makedirs_ok w _).
  - by intros (-> & _)%milestone_loop_env.
  - by intros [= <- _].
Qed.

Lemma vault_path_not_zip_path (base : string) (m : Milestone) :
  os_path_join base "beaver_passwords.secure" ≠ zip_path m.
Proof.
  intros H. apply (f_equal last_char) in H. unfold zip_path in H.
  rewrite !last_char_join in H by (by destruct (name m)).
  rewrite (last_char_app (name m) ".zip") in H by done. done.
Qed.

(** *** Archives *)

Lemma zip_paths_distinct : NoDup (zip_path <$> milestones).
Proof. apply (bool_decide_unpack _). by vm_compute. Qed.

Lemma seven_cards_not_selected (m : Milestone) :
  m ∈ milestones → Forall (λ filename, selects m filename = false) seven_cards.
Proof.
  intros Hm. unfold milestones in Hm.
  repeat (apply elem_of_cons in Hm as [->|Hm]);
    [by repeat constructor..|by apply elem_of_nil in Hm].
Qed.

(** C2. After a completed run, the archive of each packaging milestone
    holds, of the files of the card directory, exactly those whose name
    has one of the comma-separated pieces of the milestone's pattern as
    a literal substring, each under its own name and with its own bytes.
    When the directory consists of [CARD_006_x.yml] to [CARD_012_x.yml],
    the bracket patterns of the script select none of them, and neither
    does any pattern whose pieces all hold a bracket. *)
Theorem archive_selects_by_substring (now : clock) (w w' : World)
    (vault : list VaultEntry) (m : Milestone) :
  zip_milestone_cards now w = (w', Return vault) → m ∈ milestones →
  ∃ listing members md,
    work_cards w = Some listing
    ∧ files w' !! zip_path m
      = Some {| data := ZipArchive members; mode := md |}
    ∧ (∀ filename, filename ∈ listing.*1 →
         (filename ∈ members.*1
          ↔ ∃ pattern, pattern ∈ split "," (card_pattern m)
                       ∧ substring_of pattern filename))
    ∧ (∀ filename b, (filename, b) ∈ members →
         (filename, Some b) ∈ listing)
    ∧ (listing.*1 = seven_cards → members = [])
    ∧ (∀ m' listing',
         (∀ piece, piece ∈ split "," (card_pattern m') →
                   substring_of "[" piece) →
         listing'.*1 = seven_cards → selected m' listing' = []).
Proof.
  unfold zip_milestone_cards. intros H Hm.
  destruct (makedirs_ok w _); [|done].
  destruct (milestone_loop_archive _ _ _ _ _ _ _ m H zip_paths_distinct Hm)
    as (listing & md & Hl & Hf & Hr).
  exists listing, (selected m listing), md.
  split; [done|]. split; [done|]. split; [|split; [|split]].
  - intros filename Hin. rewrite selected_names, <-selects_spec.
    split; [by intros [? _]|]. intros Hsel. split; [done|].
    apply list_elem_of_fmap in Hin as ([fn ob] & -> & Hin).
    destruct (Hr _ _ Hin Hsel) as [b ->]. by exists b.
  - intros filename b Hin. unfold selected in Hin.
    apply list_elem_of_omap in Hin as ([fn ob] & Hin & Hsel). simpl in Hsel.
    destruct (selects m fn); [|done]. by destruct ob; simplify_eq/=.
  - intros Hnames. pose proof (seven_cards_not_selected m Hm) as Hnone.
    rewrite <-Hnames in Hnone. unfold selected. clear -Hnone.
    induction listing as [|[fn ob] listing IH]; [done|].
    rewrite fmap_cons in Hnone. apply Forall_cons in Hnone as [Hfn Hnone].
    simpl in *. rewrite Hfn. by apply IH.
  - intros m' listing' Hpieces Hnames.
    assert (Forall (λ fn, selects m' fn = false) listing'.*1) as Hnone.
    { rewrite Hnames. unfold seven_cards.
      repeat (apply Forall_cons; split;
              [apply bracket_patterns_inert;
                 [done|by rewrite <-contains_spec]|]).
      by apply Forall_nil. }
    unfold selected. clear -Hnone.
    induction listing' as [|[fn ob] listing' IH]; [done|].
    rewrite fmap_cons in Hnone. apply Forall_cons in Hnone as [Hfn Hnone].
    simpl in *. rewrite Hfn. by apply IH.
Qed.

Lemma seven_cards_run_vault :
  (zip_milestone_cards (fixed_clock 2026 11 4)
     (easy_world (Some ((λ fn, (fn, Some "card")) <$> seven_cards)) ∅)).2
  = Return (entry_for {| year := 2026; month := 11; day := 4 |}
              <$> milestones).
Proof. vm_compute. reflexivity. Qed.

Lemma seven_cards_run_completes :
  ∃ w' vault,
    zip_milestone_cards (fixed_clock 2026 11 4)
      (easy_world (Some ((λ fn, (fn, Some "card")) <$> seven_cards)) ∅)
    = (w', Return vault).
Proof.
  pose proof seven_cards_run_vault as H.
  destruct (zip_milestone_cards _ _) as [w' r]. simpl in H. subst r.
  by eexists _, _.
Qed.

Lemma archive_selects_by_substring_witness :
  ∃ w' vault md,
    zip_milestone_cards (fixed_clock 2026 11 4)
      (easy_world (Some ((λ fn, (fn, Some "card")) <$> seven_cards)) ∅)
    = (w', Return vault)
    ∧ files w' !! zip_path {| name := "MILESTONE_2_CORE_KV_OPS";
                              card_pattern :=
                                "CARD_00[6-9].yml,CARD_01[0-2].yml" |}
      = Some {| data := ZipArchive []; mode := md |}.
Proof.
  destruct seven_cards_run_completes as (w' & vault & E).
  destruct (archive_selects_by_substring _ _ _ _
              {| name := "MILESTONE_2_CORE_KV_OPS";
                 card_pattern := "CARD_00[6-9].yml,CARD_01[0-2].yml" |}
              E (list_elem_of_here _ _))
    as (listing & members & md & Hl & Hf & _ & _ & Hnone & _).
  exists w', vault, md. split; [exact E|].
  assert (listing = (λ fn, (fn, Some "card")) <$> seven_cards) as Hlist
    by (injection Hl as Hl; symmetry; exact Hl).
  rewrite Hf, Hnone; [reflexivity|]. rewrite Hlist. reflexivity.
Defined.

(** The pattern list of the packaging test, ["CARD_00[6-9]"] and
    ["CARD_01[0-2]"], selects none of the seven files either, while a
    pattern without brackets does select by substring. *)
Example bracket_patterns_select_nothing :
  filter (λ fn, selects {| name := "M";
                           card_pattern := "CARD_00[6-9],CARD_01[0-2]" |} fn)
         seven_cards = []
  ∧ filter (λ fn, selects {| name := "M"; card_pattern := "CARD_00,_012" |} fn)
           seven_cards
    = ["CARD_006_x.yml"; "CARD_007_x.yml"; "CARD_008_x.yml";
       "CARD_009_x.yml"; "CARD_012_x.yml"].
Proof. by vm_compute. Qed.

(** *** Dates and passwords *)

Lemma strftime_Ymd_length (d : Date) :
  valid_date d → String.length (strftime_Ymd d) = 8%nat.
Proof.
  intros (Hy & Hm & Hd). unfold strftime_Ymd.
  rewrite !string_length_app, !format_0d_length; [done|lia|..];
    try lia; simpl; lia.
Qed.

Lemma strftime_Ymd_inj (d1 d2 : Date) :
  valid_date d1 → valid_date d2 →
  strftime_Ymd d1 = strftime_Ymd d2 → d1 = d2.
Proof.
  intros (Hy1 & Hm1 & Hd1) (Hy2 & Hm2 & Hd2). unfold strftime_Ymd.
  intros H.
  apply string_app_inj_length in H as [Hy H];
    [|rewrite !format_0d_length; [done|lia|simpl; lia|lia|simpl; lia]].
  apply string_app_inj_length in H as [Hm Hd];
    [|rewrite !format_0d_length; [done|lia|simpl; lia|lia|simpl; lia]].
  apply format_0d_inj in Hy, Hm, Hd.
  destruct d1, d2; simpl in *. f_equal; lia.
Qed.

Lemma password_inj (d1 d2 : Date) (m : Milestone) :
  valid_date d1 → valid_date d2 →
  password (entry_for d1 m) = password (entry_for d2 m) → d1 = d2.
Proof.
  intros Hv1 Hv2 H. unfold entry_for in H. cbn [password] in H.
  apply (inj (String.append "beaver_dam_")) in H.
  apply string_app_inj_length in H as [H _];
    [|by rewrite !strftime_Ymd_length].
  by apply strftime_Ymd_inj.
Qed.

Lemma imap_fixed_date (now : clock) (d : Date) (ms : list Milestone) :
  (∀ k, (k < List.length ms)%nat → now k = d) →
  imap (λ j m, entry_for (now (0 + j)%nat) m) ms = entry_for d <$> ms.
Proof.
  intros Hnow. apply list_eq. intros i.
  rewrite list_lookup_imap, list_lookup_fmap.
  destruct (ms !! i) as [m|] eqn:E; [|done]. simpl.
  by rewrite Hnow by (by eapply lookup_lt_Some).
Qed.

(** C4. A completed run yields exactly one vault entry per milestone of
    the packaging list, in list order, with the password
    [beaver_dam_<date>_<name>], the date being printed as [YYYYMMDD]. Two
    runs on the same date give the same entries; two runs on different
    dates give different passwords for every milestone. Each password
    takes the date from the clock when its milestone is reached, so "the
    date of a run" means that all these readings agree. *)
Theorem one_password_per_milestone (now1 now2 : clock)
    (w1 w2 w1' w2' : World) (v1 v2 : list VaultEntry) (d1 d2 : Date) :
  zip_milestone_cards now1 w1 = (w1', Return v1) →
  zip_milestone_cards now2 w2 = (w2', Return v2) →
  (∀ k, (k < List.length milestones)%nat → now1 k = d1) →
  (∀ k, (k < List.length milestones)%nat → now2 k = d2) →
  valid_date d1 → valid_date d2 →
  v1 = entry_for d1 <$> milestones
  ∧ v2 = entry_for d2 <$> milestones
  ∧ (d1 = d2 → v1 = v2)
  ∧ (d1 ≠ d2 →
     ∀ i e1 e2, v1 !! i = Some e1 → v2 !! i = Some e2 →
       milestone e1 = milestone e2 ∧ password e1 ≠ password e2).
Proof.
  unfold zip_milestone_cards. intros H1 H2 Hd1 Hd2 Hv1 Hv2.
  destruct (makedirs_ok w1 _); [|done]. destruct (makedirs_ok w2 _); [|done].
  apply milestone_loop_vault in H1, H2.
  rewrite (imap_fixed_date now1 d1), app_nil_l in H1 by done.
  rewrite (imap_fixed_date now2 d2), app_nil_l in H2 by done. subst v1 v2.
  split; [done|]. split; [done|]. split; [by intros ->|].
  intros Hne i e1 e2. rewrite !list_lookup_fmap.
  destruct (milestones !! i) as [m|]; [|done].
  intros [= <-] [= <-]. split; [done|].
  intros Heq. by apply password_inj in Heq.
Qed.

Lemma one_password_per_milestone_witness :
  ∃ v1 v2,
    (zip_milestone_cards (fixed_clock 2026 11 4)
       (easy_world (Some ((λ fn, (fn, Some "card")) <$> seven_cards)) ∅)).2
    = Return v1
    ∧ (zip_milestone_cards (fixed_clock 2026 11 5)
         (easy_world (Some ((λ fn, (fn, Some "card")) <$> seven_cards)) ∅)).2
      = Return v2
    ∧ v1 !! 1%nat
      = Some {| milestone := "MILESTONE_3_TTL_CACHE";
                password := "beaver_dam_20261104_MILESTONE_3_TTL_CACHE" |}
    ∧ v2 !! 1%nat
      = Some {| milestone := "MILESTONE_3_TTL_CACHE";
                password := "beaver_dam_20261105_MILESTONE_3_TTL_CACHE" |}.
Proof.
  destruct seven_cards_run_completes as (w1' & v1 & E1).
  pose proof (zip_milestone_cards_clock (fixed_clock 2026 11 4)
                (fixed_clock 2026 11 5)
                (easy_world
                   (Some ((λ fn, (fn, Some "card")) <$> seven_cards)) ∅))
    as [_ Hsame].
  rewrite E1 in Hsame.
  destruct (zip_milestone_cards (fixed_clock 2026 11 5) _)
    as [w2' [v2|]] eqn:E2; [|destruct Hsame].
  rewrite E1. exists v1, v2. split; [reflexivity|]. split; [reflexivity|].
  destruct (one_password_per_milestone _ _ _ _ _ _ _ _
              {| year := 2026; month := 11; day := 4 |}
              {| year := 2026; month := 11; day := 5 |}
              E1 E2 (λ _ _, eq_refl) (λ _ _, eq_refl))
    as (-> & -> & _); [unfold valid_date; simpl; lia..|].
  split; reflexivity.
Defined.

(** *** The vault file *)

Lemma owner_read_write_bits (i : Z) :
  Z.testbit 384 i = true ↔ i = 7 ∨ i = 8.
Proof.
  destruct (decide (i < 0)) as [Hneg|Hpos].
  { rewrite Z.testbit_neg_r by done. split; [done|lia]. }
  destruct (decide (8 < i)) as [Hbig|Hsmall].
  { rewrite Z.bits_above_log2 by (try done; by vm_compute).
    split; [done|lia]. }
  assert (i = 0 ∨ i = 1 ∨ i = 2 ∨ i = 3 ∨ i = 4 ∨ i = 5 ∨ i = 6
          ∨ i = 7 ∨ i = 8) as Hi by lia.
  repeat (destruct Hi as [->|Hi]); try subst i; simpl; split;
    (done || lia || auto).
Qed.

Lemma save_password_vault_frame (environ : gmap string string)
    (json_dump : list VaultEntry → string) (vault : list VaultEntry)
    (w w' : World) (o : outcome) (p : string) :
  save_password_vault environ json_dump vault w = (w', o) →
  p ≠ os_path_join (default "/tmp/agentic_etc" (environ !! "AGENTIC_ETC"))
        "beaver_passwords.secure" →
  files w' !! p = files w !! p.
Proof.
  unfold save_password_vault. intros H Hp.
  destruct (makedirs_ok w _); [|by simplify_eq].
  destruct (writable w _); [|by simplify_eq].
  destruct (chmod_ok _ _).
  - simplify_eq. unfold chmod. simpl. rewrite lookup_insert_eq. simpl.
    by rewrite !lookup_insert_ne.
  - simplify_eq. simpl. by rewrite lookup_insert_ne.
Qed.

(** C8. A completed [save_password_vault] has written the vault file
    [beaver_passwords.secure] in the base directory, which is the value
    of [AGENTIC_ETC] when that variable is set and [/tmp/agentic_etc]
    otherwise; the file then has the mode [0o600], whose only bits are
    owner-read and owner-write, whatever mode it had before. No other
    file is touched. *)
Theorem vault_file_location_and_mode (environ : gmap string string)
    (json_dump : list VaultEntry → string) (vault : list VaultEntry)
    (w w' : World) :
  save_password_vault environ json_dump vault w = (w', Completed) →
  let base := default "/tmp/agentic_etc" (environ !! "AGENTIC_ETC") in
  let vault_path := os_path_join base "beaver_passwords.secure" in
  files w' !! vault_path
    = Some {| data := Text (json_dump vault); mode := 384 |}
  ∧ (∀ i, Z.testbit 384 i = true ↔ i = 7 ∨ i = 8)
  ∧ (environ !! "AGENTIC_ETC" = None →
     vault_path = "/tmp/agentic_etc/beaver_passwords.secure")
  ∧ (∀ dir, environ !! "AGENTIC_ETC" = Some dir →
       vault_path
       = if (String.length dir =? 0)%nat || ends_with_sep dir
         then dir +:+ "beaver_passwords.secure"
         else dir +:+ "/beaver_passwords.secure")
  ∧ (∀ p, p ≠ vault_path → files w' !! p = files w !! p).
Proof.
  intros H base vault_path.
  split; [|split; [apply owner_read_write_bits|split; [|split]]].
  - unfold save_password_vault in H. fold base in H. fold vault_path in H.
    destruct (makedirs_ok w base); [|done].
    destruct (writable w vault_path); [|done].
    destruct (chmod_ok _ _); [|done]. simplify_eq.
    unfold chmod. simpl. rewrite lookup_insert_eq. simpl.
    by rewrite lookup_insert_eq.
  - intros Hnone. unfold vault_path, base. by rewrite Hnone.
  - intros dir Hsome. unfold vault_path, base. rewrite Hsome. simpl.
    unfold os_path_join. simpl. by destruct (_ || _).
  - intros p Hp. by eapply save_password_vault_frame.
Qed.

Lemma save_over_old_vault_completes :
  (save_password_vault ∅ (λ _, "[]") []
     (easy_world None
        {[ "/tmp/agentic_etc/beaver_passwords.secure"
           := {| data := Text "old"; mode := 420 |} ]})).2
  = Completed.
Proof. vm_compute. reflexivity. Qed.

Lemma vault_file_location_and_mode_witness :
  ∃ w',
    (save_password_vault ∅ (λ _, "[]") []
       (easy_world None
          {[ "/tmp/agentic_etc/beaver_passwords.secure"
             := {| data := Text "old"; mode := 420 |} ]})).1 = w'
    ∧ files w' !! "/tmp/agentic_etc/beaver_passwords.secure"
      = Some {| data := Text "[]"; mode := 384 |}.
Proof.
  pose proof save_over_old_vault_completes as H.
  destruct (save_password_vault ∅ (λ _, "[]") [] _) as [w' o] eqn:E.
  simpl in H. subst o. exists w'. split; [reflexivity|].
  destruct (vault_file_location_and_mode _ _ _ _ _ E)
    as (Hfile & _ & Hpath & _).
  rewrite <-(Hpath (lookup_empty _)). exact Hfile.
Defined.

(** *** Failure of the packaging stage *)

(** C9. When the packaging stage raises (the card directory cannot be
    listed, a selected card cannot be read, the archive or its directory
    cannot be created), [main] ends there: [save_password_vault] is not
    run, and the vault file is as it was before the run. *)
Theorem packaging_error_keeps_vault (environ : gmap string string)
    (json_dump : list VaultEntry → string) (now : clock) (w w' : World) :
  zip_milestone_cards now w = (w', Raise) →
  let vault_path :=
    os_path_join (default "/tmp/agentic_etc" (environ !! "AGENTIC_ETC"))
      "beaver_passwords.secure" in
  main environ json_dump now w = (w', Raised)
  ∧ files w' !! vault_path = files w !! vault_path.
Proof.
  intros H vault_path. split; [unfold main; by rewrite H|].
  unfold zip_milestone_cards in H.
  destruct (makedirs_ok w _); [|by simplify_eq].
  eapply milestone_loop_frame; [done|].
  intros (m & Hm & _)%list_elem_of_fmap.
  by apply vault_path_not_zip_path in Hm.
Qed.

Lemma missing_directory_raises :
  (zip_milestone_cards (fixed_clock 2026 11 4)
     (easy_world None
        {[ "/tmp/agentic_etc/beaver_passwords.secure"
           := {| data := Text "old"; mode := 384 |} ]})).2
  = Raise.
Proof. vm_compute. reflexivity. Qed.

Lemma packaging_error_keeps_vault_witness :
  ∃ w',
    main ∅ (λ _, "[]") (fixed_clock 2026 11 4)
      (easy_world None
         {[ "/tmp/agentic_etc/beaver_passwords.secure"
            := {| data := Text "old"; mode := 384 |} ]})
    = (w', Raised)
    ∧ files w' !! "/tmp/agentic_etc/beaver_passwords.secure"
      = Some {| data := Text "old"; mode := 384 |}.
Proof.
  pose proof missing_directory_raises as H.
  destruct (zip_milestone_cards _ _) as [w' r] eqn:E.
  simpl in H. subst r. exists w'.
  destruct (packaging_error_keeps_vault ∅ (λ _, "[]") _ _ _ E) as [Hm Hf].
  split; [exact Hm|].
  etrans; [exact Hf|]. apply lookup_singleton_eq.
Defined.

(** An entry that is selected and cannot be read stops the run as well. *)
Example unreadable_card_raises :
  (main ∅ (λ _, "[]") (fixed_clock 2026 11 4)
     (easy_world (Some [("CARD_01[3-9].yml", None)]) ∅)).2 = Raised
  ∧ files (main ∅ (λ _, "[]") (fixed_clock 2026 11 4)
             (easy_world (Some [("CARD_01[3-9].yml", None)]) ∅)).1
      !! "/tmp/agentic_etc/beaver_passwords.secure" = None.
Proof. vm_compute. done. Qed.

(** *** The date and the archives *)

(** C10. The date has no part in the archives. Two runs of the
    packaging stage from the same state with any two clocks leave the
    same files (the same archives with the same members and bytes) and
    end the same way, and after the whole [main] the two states can
    differ in the vault file only. Two completed runs over the same card
    directory, whatever else differs (the clock, the files left by an
    earlier run), give every milestone the same archive members. *)
Theorem archives_independent_of_date (environ : gmap string string)
    (json_dump : list VaultEntry → string) (now1 now2 : clock) (w : World) :
  (zip_milestone_cards now1 w).1 = (zip_milestone_cards now2 w).1
  ∧ same_ending (zip_milestone_cards now1 w).2 (zip_milestone_cards now2 w).2
  ∧ (main environ json_dump now1 w).2 = (main environ json_dump now2 w).2
  ∧ (∀ p,
       p ≠ os_path_join
             (default "/tmp/agentic_etc" (environ !! "AGENTIC_ETC"))
             "beaver_passwords.secure" →
       files (main environ json_dump now1 w).1 !! p
       = files (main environ json_dump now2 w).1 !! p)
  ∧ (∀ w2 w1' w2' v1 v2 m,
       work_cards w2 = work_cards w →
       zip_milestone_cards now1 w = (w1', Return v1) →
       zip_milestone_cards now2 w2 = (w2', Return v2) →
       m ∈ milestones →
       ∃ members md1 md2,
         files w1' !! zip_path m
           = Some {| data := ZipArchive members; mode := md1 |}
         ∧ files w2' !! zip_path m
           = Some {| data := ZipArchive members; mode := md2 |}).
Proof.
  destruct (zip_milestone_cards_clock now1 now2 w) as [Hw Hr].
  split; [done|]. split; [done|].
  assert ((main environ json_dump now1 w).2 = (main environ json_dump now2 w).2
          ∧ ∀ p,
              p ≠ os_path_join
                    (default "/tmp/agentic_etc" (environ !! "AGENTIC_ETC"))
                    "beaver_passwords.secure" →
              files (main environ json_dump now1 w).1 !! p
              = files (main environ json_dump now2 w).1 !! p) as [Ho Hf].
  { unfold main.
    destruct (zip_milestone_cards now1 w) as [w1 [v1|]],
             (zip_milestone_cards now2 w) as [w2 [v2|]];
      simpl in *; try done; subst w2; [|done].
    split.
    + unfold save_password_vault.
      destruct (makedirs_ok w1 _); [|done].
      destruct (writable w1 _); [|done]. simpl.
      by destruct (chmod_ok w1 _).
    + intros p Hp.
      destruct (save_password_vault environ json_dump v1 w1)
        as [w1' o1] eqn:E1.
      destruct (save_password_vault environ json_dump v2 w1)
        as [w2' o2] eqn:E2.
      simpl. erewrite (save_password_vault_frame _ _ _ _ _ _ _ E1) by done.
      by erewrite (save_password_vault_frame _ _ _ _ _ _ _ E2) by done. }
  split; [done|]. split; [done|].
  clear Hw Hr Ho Hf. intros w2 w1' w2' v1 v2 m Hcards H1 H2 Hm.
    unfold zip_milestone_cards in H1, H2.
    destruct (makedirs_ok w _); [|done]. destruct (makedirs_ok w2 _); [|done].
    destruct (milestone_loop_archive _ _ _ _ _ _ _ m H1 zip_paths_distinct Hm)
      as (listing1 & md1 & Hl1 & Hf1 & _).
    destruct (milestone_loop_archive _ _ _ _ _ _ _ m H2 zip_paths_distinct Hm)
      as (listing2 & md2 & Hl2 & Hf2 & _).
    assert (listing2 = listing1) as -> by congruence.
    by exists (selected m listing1), md1, md2.
Qed.

Lemma seven_cards_next_day_vault :
  (zip_milestone_cards (fixed_clock 2026 11 5)
     (zip_milestone_cards (fixed_clock 2026 11 4)
        (easy_world (Some ((λ fn, (fn, Some "card")) <$> seven_cards))
           ∅)).1).2
  = Return (entry_for {| year := 2026; month := 11; day := 5 |}
              <$> milestones).
Proof. vm_compute. reflexivity. Qed.

Lemma archives_independent_of_date_witness :
  ∃ w1 v1 w2 v2 members md1 md2,
    zip_milestone_cards (fixed_clock 2026 11 4)
      (easy_world (Some ((λ fn, (fn, Some "card")) <$> seven_cards)) ∅)
    = (w1, Return v1)
    ∧ zip_milestone_cards (fixed_clock 2026 11 5) w1 = (w2, Return v2)
    ∧ files w1 !! zip_path {| name := "MILESTONE_3_TTL_CACHE";
                              card_pattern := "CARD_01[3-9].yml" |}
      = Some {| data := ZipArchive members; mode := md1 |}
    ∧ files w2 !! zip_path {| name := "MILESTONE_3_TTL_CACHE";
                              card_pattern := "CARD_01[3-9].yml" |}
      = Some {| data := ZipArchive members; mode := md2 |}.
Proof.
  pose proof seven_cards_next_day_vault as H2.
  destruct seven_cards_run_completes as (w1 & v1 & E1).
  rewrite E1 in H2. cbn [fst] in H2.
  destruct (zip_milestone_cards (fixed_clock 2026 11 5) w1)
    as [w2 r2] eqn:E2. cbn [snd] in H2. subst r2.
  assert (work_cards w1
          = work_cards
              (easy_world
                 (Some ((λ fn, (fn, Some "card")) <$> seven_cards)) ∅))
    as Hcards by exact (zip_milestone_cards_listing _ _ _ _ E1).
  destruct (archives_independent_of_date ∅ (λ _, "[]")
              (fixed_clock 2026 11 4) (fixed_clock 2026 11 5)
              (easy_world
                 (Some ((λ fn, (fn, Some "card")) <$> seven_cards)) ∅))
    as (_ & _ & _ & _ & Hsame).
  destruct (Hsame w1 w1 w2 v1 _
              {| name := "MILESTONE_3_TTL_CACHE";
                 card_pattern := "CARD_01[3-9].yml" |}
              Hcards E1 E2
              (list_elem_of_further _ _ _ (list_elem_of_here _ _)))
    as (members & md1 & md2 & Hf1 & Hf2).
  eexists w1, v1, w2, _, members, md1, md2.
  split; [exact E1|]. split; [exact E2|]. split; [exact Hf1 | exact Hf2].
Defined.

End zip_milestones_facts.

(** ** More on the generation stage *)

Module generate_work_cards_more.
Import PyStr generate_work_cards generate_work_cards_facts.

(** *** Characters of the names *)

Lemma char_in_nil (c : ascii) : ¬ char_in c "".
Proof. unfold char_in. simpl. apply not_elem_of_nil. Qed.

Lemma char_in_cons (c c' : ascii) (s : string) :
  char_in c (String c' s) ↔ c = c' ∨ char_in c s.
Proof. unfold char_in. simpl. apply elem_of_cons. Qed.

Lemma char_in_app (c : ascii) (s t : string) :
  char_in c (s +:+ t) ↔ char_in c s ∨ char_in c t.
Proof.
  induction s as [|c' s IH].
  - rewrite string_app_nil_l. pose proof (char_in_nil c). tauto.
  - rewrite string_app_cons, !char_in_cons, IH. tauto.
Qed.

Lemma pretty_go_digits (c : ascii) (x : N) (s : string) :
  char_in c (pretty_N_go x s) →
  char_in c s ∨ (48 ≤ N_of_ascii c ≤ 57)%N.
Proof.
  revert s. induction (N.lt_wf_0 x) as [x _ IH]; intros s.
  destruct (decide (x = 0)%N) as [->|Hx]; [rewrite pretty_N_go_0; auto|].
  rewrite pretty_N_go_step by lia.
  intros [Hin|Hd]%IH; [|by right|apply N.div_lt; lia].
  apply char_in_cons in Hin as [->|Hin]; [right|by left].
  unfold pretty_N_char. repeat case_match; simpl; lia.
Qed.

Lemma digits_chars (c : ascii) (n : N) :
  char_in c (digits n) → (48 ≤ N_of_ascii c ≤ 57)%N.
Proof.
  unfold digits, pretty, pretty_N. case_decide.
  - intros [->|Hin]%char_in_cons; [simpl; lia|by apply char_in_nil in Hin].
  - intros [Hin|Hd]%pretty_go_digits; [by apply char_in_nil in Hin|done].
Qed.

Lemma zeros_chars (c : ascii) (k : nat) : char_in c (zeros k) → c = "0"%char.
Proof.
  induction k as [|k IH]; simpl.
  - by intros ?%char_in_nil.
  - intros [->|Hin]%char_in_cons; [done|by apply IH].
Qed.

Lemma format_0d_chars (c : ascii) (w : nat) (n : Z) :
  char_in c (format_0d w n) → c = "-"%char ∨ (48 ≤ N_of_ascii c ≤ 57)%N.
Proof.
  unfold format_0d. destruct (n <? 0).
  - intros [->|Hin]%char_in_cons; [by left|]. right.
    apply char_in_app in Hin as [->%zeros_chars|Hin%digits_chars];
      [simpl; lia|done].
  - intros Hin. right.
    apply char_in_app in Hin as [->%zeros_chars|Hin%digits_chars];
      [simpl; lia|done].
Qed.



(** *** Cutting a string at a separator *)

Lemma string_app_sep_inj (c : ascii) (s s' r r' : string) :
  ¬ char_in c s → ¬ char_in c s' →
  s +:+ String c r = s' +:+ String c r' → s = s' ∧ r = r'.
Proof.
  revert s'. induction s as [|a s IH]; intros [|a' s'] Hs Hs' H.
  - rewrite !string_app_nil_l in H. by simplify_eq.
  - rewrite string_app_nil_l, string_app_cons in H. simplify_eq.
    destruct Hs'. apply char_in_cons. by left.
  - rewrite string_app_nil_l, string_app_cons in H. simplify_eq.
    destruct Hs. apply char_in_cons. by left.
  - rewrite !string_app_cons in H. simplify_eq.
    destruct (IH s') as [-> ->]; [| |done..].
    + intros ?. apply Hs, char_in_cons. by right.
    + intros ?. apply Hs', char_in_cons. by right.
Qed.

Lemma string_app_inv_tail (s s' t : string) :
  s +:+ t = s' +:+ t → s = s'.
Proof.
  intros H. apply string_app_inj_length in H as [? _]; [done|].
  apply (f_equal String.length) in H. rewrite !string_length_app in H. lia.
Qed.

Lemma os_path_join_inj (a b b' : string) :
  starts_with_sep b = false → starts_with_sep b' = false →
  os_path_join a b = os_path_join a b' → b = b'.
Proof.
  unfold os_path_join. intros -> ->.
  destruct (_ || _); intros H.
  - by apply (inj (String.append a)) in H.
  - apply (inj (String.append a)) in H. by apply (inj (String.append "/")) in H.
Qed.

(** *** File names *)


Lemma card_filename_unfold (m : Milestone) (n : Z) (task : string) :
  card_filename (generate_work_card m n task) m
  = "CARD_" +:+ format_0d 3 n +:+ "_" +:+ slug (name m) +:+ ".yml".
Proof.
  unfold card_filename, slug. cbn [card_number generate_work_card].
  by rewrite string_app_assoc.
Qed.

Lemma card_filename_key (m m' : Milestone) (n n' : Z) (task task' : string) :
  card_filename (generate_work_card m n task) m
  = card_filename (generate_work_card m' n' task') m' →
  n = n' ∧ slug (name m) = slug (name m').
Proof.
  rewrite !card_filename_unfold. intros H.
  apply (inj (String.append "CARD_")) in H.
  apply string_app_sep_inj in H as [Hn Hs].
  - split; [by apply format_0d_inj in Hn|by apply string_app_inv_tail in Hs].
  - intros [?|?]%format_0d_chars; [done|simpl in *; lia].
  - intros [?|?]%format_0d_chars; [done|simpl in *; lia].
Qed.

Lemma card_filename_relative (m : Milestone) (n : Z) (task : string) :
  starts_with_sep (card_filename (generate_work_card m n task) m) = false.
Proof. by rewrite card_filename_unfold. Qed.

(** X1. Two cards are stored under the same file name exactly when they
    have the same number and their milestone names give the same slug
    (the name in lower case with spaces turned into underscores); the
    task text plays no part. *)
Theorem card_filename_inj (m m' : Milestone) (n n' : Z)
    (task task' : string) :
  card_filename (generate_work_card m n task) m
  = card_filename (generate_work_card m' n' task') m'
  ↔ n = n' ∧ slug (name m) = slug (name m').
Proof.
  split; [apply card_filename_key|].
  intros [-> Hs]. by rewrite !card_filename_unfold, Hs.
Qed.


(** *** The writes of a run *)

Lemma milestone_writes_elem (path : string) (dump : WorkCard → string)
    (m : Milestone) (p t : string) :
  (p, t) ∈ milestone_writes path dump m
  ↔ ∃ card, card ∈ milestone_cards m ∧ p = card_path path m card
            ∧ t = dump card.
Proof.
  unfold milestone_writes. rewrite list_elem_of_fmap. split.
  - intros (card & [= -> ->] & Hin). by exists card.
  - intros (card & Hin & -> & ->). by exists card.
Qed.

Lemma all_writes_elem (path : string) (dump : WorkCard → string)
    (ms : list Milestone) (p t : string) :
  (p, t) ∈ all_writes path dump ms
  ↔ ∃ m card, m ∈ ms ∧ card ∈ milestone_cards m
              ∧ p = card_path path m card ∧ t = dump card.
Proof.
  unfold all_writes. induction ms as [|m ms IH]; simpl.
  - split; [by intros ?%elem_of_nil|].
    by intros (? & ? & ?%elem_of_nil & _).
  - rewrite elem_of_app, IH, milestone_writes_elem. split.
    + intros [(card & ? & ? & ?)|(m' & card & ? & ? & ? & ?)].
      * exists m, card. split; [left|done].
      * exists m', card. split; [by right|done].
    + intros (m' & card & [->|Hin]%elem_of_cons & ? & ? & ?).
      * left. by exists card.
      * right. by exists m', card.
Qed.

Lemma milestone_cards_elem (m : Milestone) (card : WorkCard) :
  card ∈ milestone_cards m
  ↔ ∃ i task, tasks m !! i = Some task
      ∧ card = generate_work_card m ((card_range m).1 + Z.of_nat i) task.
Proof.
  rewrite list_elem_of_lookup. split.
  - intros [i Hi]. rewrite milestone_cards_lookup in Hi.
    destruct (tasks m !! i) as [task|] eqn:E; simplify_eq/=.
    by exists i, task.
  - intros (i & task & Ht & ->). exists i.
    by rewrite milestone_cards_lookup, Ht.
Qed.

Lemma milestone_paths (path : string) (dump : WorkCard → string)
    (m : Milestone) :
  (milestone_writes path dump m).*1
  = (λ n, os_path_join path
            ("CARD_" +:+ format_0d 3 n +:+ "_" +:+ slug (name m) +:+ ".yml"))
      <$> seqZ (card_range m).1 (Z.of_nat (List.length (tasks m))).
Proof.
  rewrite <-enumerate_fst. unfold milestone_writes, milestone_cards.
  rewrite <-!list_fmap_compose. apply list_fmap_ext.
  intros i [n task] _. simpl. unfold card_path.
  by rewrite <-(card_filename_unfold m n task).
Qed.

Lemma milestone_paths_distinct (path : string) (dump : WorkCard → string)
    (m : Milestone) :
  NoDup (milestone_writes path dump m).*1.
Proof.
  rewrite milestone_paths. apply NoDup_fmap_2; [|apply NoDup_seqZ].
  intros n n' H. apply os_path_join_inj in H; [|done..].
  apply (inj (String.append "CARD_")) in H.
  apply string_app_sep_inj in H as [Hn _]; [by apply format_0d_inj in Hn|..];
    intros [?|?]%format_0d_chars; (done || (simpl in *; lia)).
Qed.

Lemma all_paths_distinct (path : string) (dump : WorkCard → string)
    (ms : list Milestone) :
  NoDup (slug ∘ name <$> ms) → NoDup (all_writes path dump ms).*1.
Proof.
  unfold all_writes. induction ms as [|m ms IH]; intros Hnd.
  - simpl. apply NoDup_nil_2.
  - rewrite fmap_cons in Hnd. apply NoDup_cons in Hnd as [Hm Hnd].
    simpl. rewrite fmap_app. apply NoDup_app.
    split; [apply milestone_paths_distinct|]. split; [|by apply IH].
    intros p Hp1 Hp2.
    apply list_elem_of_fmap in Hp1 as ([p1 t1] & -> & Hp1).
    apply list_elem_of_fmap in Hp2 as ([p2 t2] & Heq & Hp2).
    simpl in Heq. subst p2.
    apply milestone_writes_elem in Hp1 as (c1 & Hc1 & Hpath1 & _).
    apply (all_writes_elem path dump ms) in Hp2
      as (m2 & c2 & Hm2 & Hc2 & Hpath2 & _).
    apply milestone_cards_elem in Hc1 as (i1 & task1 & _ & ->).
    apply milestone_cards_elem in Hc2 as (i2 & task2 & _ & ->).
    rewrite Hpath1 in Hpath2. unfold card_path in Hpath2.
    apply os_path_join_inj in Hpath2;
      [|apply card_filename_relative..].
    apply card_filename_key in Hpath2 as [_ Hslug].
    apply Hm. apply list_elem_of_fmap. by exists m2.
Qed.

Lemma put_all_frame (ws : list (string * string)) (c : gmap string string)
    (p : string) :
  p ∉ ws.*1 → put_all ws c !! p = c !! p.
Proof.
  unfold put_all. revert c. induction ws as [|[p0 t0] ws IH]; intros c Hp.
  - done.
  - rewrite fmap_cons, not_elem_of_cons in Hp. destruct Hp as [Hne Hp].
    simpl. rewrite IH by done. by rewrite lookup_insert_ne.
Qed.

Lemma put_all_lookup (ws : list (string * string)) (c : gmap string string)
    (p t : string) :
  NoDup ws.*1 → (p, t) ∈ ws → put_all ws c !! p = Some t.
Proof.
  unfold put_all. revert c. induction ws as [|[p0 t0] ws IH]; intros c Hnd Hin.
  - by apply elem_of_nil in Hin.
  - rewrite fmap_cons in Hnd. apply NoDup_cons in Hnd as [Hfresh Hnd].
    apply elem_of_cons in Hin as [[= -> ->]|Hin]; simpl.
    + fold (put_all ws (<[p0:=t0]> c)). rewrite put_all_frame by done.
      apply lookup_insert_eq.
    + by apply IH.
Qed.

Lemma put_all_size (ws : list (string * string)) (c : gmap string string) :
  NoDup ws.*1 → (∀ p, p ∈ ws.*1 → c !! p = None) →
  size (put_all ws c) = (size c + List.length ws)%nat.
Proof.
  unfold put_all. revert c. induction ws as [|[p0 t0] ws IH]; intros c Hnd Hc.
  - simpl. lia.
  - rewrite fmap_cons in Hnd. apply NoDup_cons in Hnd as [Hfresh Hnd].
    simpl. rewrite IH; [|done|].
    + rewrite map_size_insert_None; [lia|]. apply Hc. rewrite fmap_cons. left.
    + intros p Hp. rewrite lookup_insert_ne; [|by intros ->].
      apply Hc. rewrite fmap_cons. by right.
Qed.

Lemma run_completed_contents (path : string) (dump : WorkCard → string)
    (ms : list Milestone) (d : Disk) :
  (outer_loop path dump ms d).2 = Completed →
  contents (outer_loop path dump ms d).1
  = put_all (all_writes path dump ms) (contents d).
Proof.
  rewrite outer_loop_writes, write_all_spec. simpl.
  destruct (forallb _ _) eqn:E; [|done]. intros _. by rewrite opened_all.
Qed.

(** X3. When the milestone names of the catalog give pairwise different
    slugs, no card file is overwritten within a run: all paths written
    are different, a completed run leaves in the file of every card the
    text of that very card, and into an empty directory it puts as many
    files as there are tasks. *)
Theorem distinct_slugs_no_overwrite (path : string)
    (dump : WorkCard → string) (ms : list Milestone) (d : Disk) :
  NoDup (slug ∘ name <$> ms) →
  (outer_loop path dump ms d).2 = Completed →
  NoDup (all_writes path dump ms).*1
  ∧ (∀ m card, m ∈ ms → card ∈ milestone_cards m →
       contents (outer_loop path dump ms d).1 !! card_path path m card
       = Some (dump card))
  ∧ (contents d = ∅ →
     size (contents (outer_loop path dump ms d).1)
     = sum_list (List.length ∘ tasks <$> ms)).
Proof.
  intros Hslugs Hdone. pose proof (all_paths_distinct path dump ms Hslugs).
  rewrite run_completed_contents by done. split; [done|]. split.
  - intros m card Hm Hcard. apply put_all_lookup; [done|].
    apply all_writes_elem. by exists m, card.
  - intros ->. rewrite put_all_size, all_writes_length; [|done|done].
    by rewrite map_size_empty.
Qed.

Lemma shipped_run_completes :
  (outer_loop "/w" (λ card, feature_name card) milestones
     {| can_open := λ _, true; contents := ∅ |}).2 = Completed.
Proof. vm_compute. reflexivity. Qed.

Lemma shipped_slugs_distinct : NoDup (slug ∘ name <$> milestones).
Proof. apply (bool_decide_unpack _). by vm_compute. Qed.

Lemma distinct_slugs_no_overwrite_witness :
  contents
    (outer_loop "/w" (λ card, feature_name card) milestones
       {| can_open := λ _, true; contents := ∅ |}).1
    !! card_path "/w"
         {| name := "Security & Auth"; card_range := (21, 28); tasks := [] |}
         (generate_work_card
            {| name := "Security & Auth"; card_range := (21, 28);
               tasks := [] |}
            22 "Create user management system")
  = Some "Create user management system"
  ∧ size (contents
            (outer_loop "/w" (λ card, feature_name card) milestones
               {| can_open := λ _, true; contents := ∅ |}).1) = 55%nat.
Proof.
  destruct (distinct_slugs_no_overwrite "/w" (λ card, feature_name card)
              milestones {| can_open := λ _, true; contents := ∅ |}
              shipped_slugs_distinct shipped_run_completes)
    as (_ & Hfile & Hsize).
  split; [|exact (Hsize eq_refl)].
  apply (Hfile
           {| name := "Security & Auth"; card_range := (21, 28);
              tasks := [
                "Enforce stream auth preamble";
                "Create user management system";
                "Implement session tokens";
                "Generate and validate API keys";
                "Design configurable security policies";
                "Delegate encryption to system tools";
                "Prevent auth bypass";
                "Implement input validation security";
                "Protect against stream injection" ] |}
           (generate_work_card
              {| name := "Security & Auth"; card_range := (21, 28);
                 tasks := [] |}
              22 "Create user management system")).
  - do 3 apply list_elem_of_further. apply list_elem_of_here.
  - apply list_elem_of_further, list_elem_of_here.
Defined.

(** X4. A run touches no file but the card files it writes: every other
    path holds after the run, completed or not, what it held before. *)
Theorem generation_frame (path : string) (dump : WorkCard → string)
    (ms : list Milestone) (d : Disk) (p : string) :
  (∀ m card, m ∈ ms → card ∈ milestone_cards m → p ≠ card_path path m card) →
  contents (outer_loop path dump ms d).1 !! p = contents d !! p.
Proof.
  intros Hp. rewrite outer_loop_writes, write_all_spec. simpl.
  apply put_all_frame. intros ([p' t] & -> & Hin)%list_elem_of_fmap.
  assert ((p', t) ∈ all_writes path dump ms) as Hall.
  { clear Hp. revert Hin. generalize (all_writes path dump ms).
    induction l as [|[q u] l IH]; simpl; [by intros ?%elem_of_nil|].
    destruct (can_open d q); [|by intros ?%elem_of_nil].
    intros [->|?]%elem_of_cons; [left|right; by apply IH]. }
  apply all_writes_elem in Hall as (m & card & Hm & Hc & Hpath & _).
  by apply (Hp m card).
Qed.

Lemma generation_frame_witness :
  contents
    (outer_loop "/w" (λ card, feature_name card) milestones
       {| can_open := λ _, true;
          contents := {[ "/w/README.md" := "keep" ]} |}).1
    !! "/w/README.md" = Some "keep".
Proof.
  rewrite (generation_frame "/w" (λ card, feature_name card) milestones
             {| can_open := λ _, true;
                contents := {[ "/w/README.md" := "keep" ]} |}
             "/w/README.md").
  - apply lookup_singleton_eq.
  - intros m card _ (i & task & _ & ->)%milestone_cards_elem H.
    unfold card_path in H. rewrite card_filename_unfold in H.
    apply (inj (String.append "/w/")) in H. discriminate H.
Defined.

Lemma all_openable (can : string → bool) (ws : list (string * string)) :
  forallb (λ w, can w.1) ws = true ↔ ∀ p, p ∈ ws.*1 → can p = true.
Proof.
  rewrite forallb_forall. split.
  - intros H p ([p' t] & -> & Hin)%list_elem_of_fmap.
    by apply (H (p', t)), list_elem_of_In.
  - intros H [p' t] Hin%list_elem_of_In. apply H.
    apply list_elem_of_fmap. by exists (p', t).
Qed.

Lemma opened_split (can : string → bool) (ws : list (string * string)) :
  forallb (λ w, can w.1) ws = false →
  ∃ ws1 p t ws2,
    ws = (ws1 ++ (p, t) :: ws2)%list ∧ can p = false
    ∧ (∀ q, q ∈ ws1.*1 → can q = true) ∧ opened can ws = ws1.
Proof.
  induction ws as [|[p t] ws IH]; [done|]. simpl.
  destruct (can p) eqn:E; simpl.
  - intros (ws1 & p' & t' & ws2 & -> & Hp' & Hws1 & Ho)%IH.
    exists ((p, t) :: ws1), p', t', ws2. rewrite Ho.
    split; [done|]. split; [done|]. split; [|done].
    intros q. rewrite fmap_cons. intros [->|Hq]%elem_of_cons; [done|].
    by apply Hws1.
  - intros _. exists [], p, t, ws. split; [done|]. split; [done|].
    split; [|done]. by intros q ?%elem_of_nil.
Qed.

(** X5. The run stops at the first card file that cannot be opened. It
    completes exactly when every path it wants to write can be opened;
    when it raises, the cards before the first such path have been
    written and none after it. *)
Theorem generation_stops_at_first_failure (path : string)
    (dump : WorkCard → string) (ms : list Milestone) (d : Disk) :
  ((outer_loop path dump ms d).2 = Completed
   ↔ ∀ p, p ∈ (all_writes path dump ms).*1 → can_open d p = true)
  ∧ ((outer_loop path dump ms d).2 = Raised →
     ∃ ws1 p t ws2,
       all_writes path dump ms = (ws1 ++ (p, t) :: ws2)%list
       ∧ can_open d p = false
       ∧ (∀ q, q ∈ ws1.*1 → can_open d q = true)
       ∧ contents (outer_loop path dump ms d).1 = put_all ws1 (contents d)).
Proof.
  rewrite outer_loop_writes, write_all_spec. simpl.
  rewrite <-all_openable. split.
  - by destruct (forallb _ _).
  - destruct (forallb _ _) eqn:E; [done|]. intros _.
    apply opened_split in E as (ws1 & p & t & ws2 & Hws & Hp & Hws1 & Ho).
    exists ws1, p, t, ws2. by rewrite Ho.
Qed.

(** A missing card directory: the first file cannot be opened, the run
    raises and the disk is as before. *)
Example missing_directory_writes_nothing :
  outer_loop "/w" (λ card, feature_name card) milestones
    {| can_open := λ _, false; contents := {[ "/x" := "y" ]} |}
  = ({| can_open := λ _, false; contents := {[ "/x" := "y" ]} |}, Raised).
Proof. reflexivity. Qed.

(** *** Complexity *)

(** X6. The complexity of a card never decreases when the task text gets
    longer. It is 1 exactly for texts of fewer than 10 characters, 10
    exactly for texts of at least 50 characters, and a fifth of the
    length, rounded down, in between. *)
Theorem complexity_monotone (m m' : Milestone) (n n' : Z)
    (task task' : string) :
  (len task ≤ len task' →
   complexity (generate_work_card m n task)
   ≤ complexity (generate_work_card m' n' task'))
  ∧ (complexity (generate_work_card m n task) = 1 ↔ len task < 10)
  ∧ (complexity (generate_work_card m n task) = 10 ↔ 50 ≤ len task)
  ∧ (10 ≤ len task < 50 →
     complexity (generate_work_card m n task) = len task / 5).
Proof.
  cbn [complexity generate_work_card].
  assert (0 ≤ len task ∧ 0 ≤ len task') as [H0 H0'] by (unfold len; lia).
  pose proof (Z.div_mod (len task) 5). pose proof (Z.mod_pos_bound (len task) 5).
  pose proof (Z.div_mod (len task') 5).
  pose proof (Z.mod_pos_bound (len task') 5).
  repeat split; intros; lia.
Qed.

End generate_work_cards_more.

(** ** More on the packaging stage *)

Module zip_milestones_more.
Import PyStr zip_milestones zip_milestones_facts.

(** *** Patterns *)

Lemma split_app (sep : ascii) (a b : string) :
  split sep (a +:+ String sep b) = (split sep a ++ split sep b)%list.
Proof.
  induction a as [|c a IH].
  - rewrite string_app_nil_l. simpl. by rewrite Ascii.eqb_refl.
  - rewrite string_app_cons. simpl. rewrite IH.
    destruct (Ascii.eqb c sep); [done|].
    pose proof (split_nonempty sep a) as Ha.
    by destruct (split sep a).
Qed.

Lemma selects_pattern (n : string) (pattern filename : string) :
  selects {| name := n; card_pattern := pattern |} filename
  = existsb (λ piece, contains piece filename) (split "," pattern).
Proof. reflexivity. Qed.

Lemma contains_empty (s : string) : contains "" s = true.
Proof. apply contains_spec. by exists "", s. Qed.

Lemma contains_in_empty (p : string) : contains p "" = true → p = "".
Proof.
  intros ([|] & b & H)%contains_spec; [|done].
  rewrite string_app_nil_l in H. by destruct p.
Qed.

Lemma split_head_empty (sep : ascii) (s : string) (pieces : list string) :
  split sep s = "" :: pieces → s = "" ∨ ∃ t, s = String sep t.
Proof.
  destruct s as [|c s]; [by left|]. simpl.
  destruct (Ascii.eqb_spec c sep) as [->|Hne]; [right; by exists s|].
  by destruct (split sep s).
Qed.

Lemma split_tail_empty (sep : ascii) (s piece : string)
    (pieces : list string) :
  split sep s = piece :: pieces → "" ∈ pieces →
  (∃ t, s = t +:+ String sep "")
  ∨ (∃ a b, s = a +:+ String sep (String sep b)).
Proof.
  revert piece pieces. induction s as [|c s IH]; intros piece pieces.
  - simpl. intros [= <- <-]. by intros ?%elem_of_nil.
  - simpl. destruct (Ascii.eqb_spec c sep) as [->|Hne].
    + intros [= <- <-] Hin.
      destruct (split sep s) as [|piece' pieces'] eqn:E.
      { by apply elem_of_nil in Hin. }
      apply elem_of_cons in Hin as [<-|Hin].
      * apply split_head_empty in E as [->|(t & ->)].
        -- left. by exists "".
        -- right. by exists "", t.
      * destruct (IH _ _ eq_refl Hin) as [(t & ->)|(a & b & ->)].
        -- left. by exists (String sep t).
        -- right. by exists (String sep a), b.
    + destruct (split sep s) as [|piece' pieces'] eqn:E.
      { intros [= <- <-]. by intros ?%elem_of_nil. }
      intros [= <- <-] Hin.
      destruct (IH _ _ eq_refl Hin) as [(t & ->)|(a & b & ->)].
      * left. by exists (String c t).
      * right. by exists (String c a), b.
Qed.

(** X7. A milestone selects every file of the card directory exactly when
    one of the comma-separated pieces of its pattern is empty, which is
    the case for the empty pattern, for a pattern that starts or ends
    with a comma and for one with two commas in a row. *)
Theorem empty_piece_selects_all (m : Milestone) :
  ((∀ filename, selects m filename = true)
   ↔ "" ∈ split "," (card_pattern m))
  ∧ ("" ∈ split "," (card_pattern m)
     ↔ card_pattern m = ""
       ∨ (∃ s, card_pattern m = "," +:+ s)
       ∨ (∃ s, card_pattern m = s +:+ ",")
       ∨ (∃ a b, card_pattern m = a +:+ ",," +:+ b)).
Proof.
  split.
  - split.
    + intros H. specialize (H ""). unfold selects, any in H.
      apply existsb_exists in H as (piece & Hin%list_elem_of_In & Hc).
      by apply contains_in_empty in Hc as ->.
    + intros Hin filename. unfold selects, any. apply existsb_exists.
      exists "". split; [by apply list_elem_of_In|apply contains_empty].
  - generalize (card_pattern m). intros s. split.
    + intros Hin. pose proof (split_nonempty "," s) as Hs.
      destruct (split "," s) as [|piece pieces] eqn:E; [done|].
      apply elem_of_cons in Hin as [<-|Hin].
      * apply split_head_empty in E as [->|(t & ->)]; [by left|].
        right. left. by exists t.
      * destruct (split_tail_empty _ _ _ _ E Hin) as [(t & ->)|(a & b & ->)].
        -- right. right. left. by exists t.
        -- right. right. right. by exists a, b.
    + intros [->|[(t & ->)|[(t & ->)|(a & b & ->)]]].
      * by left.
      * simpl. left.
      * rewrite split_app. apply elem_of_app. right. by left.
      * change (a +:+ ",," +:+ b) with (a +:+ String "," ("," +:+ b)).
        rewrite split_app. apply elem_of_app. right. simpl. left.
Qed.

(** X8. Joining two patterns with a comma selects exactly the files that
    one of the two selects: adding a sub-pattern never takes a file out
    of the archive. *)
Theorem selects_comma (n : string) (p1 p2 filename : string) :
  selects {| name := n; card_pattern := p1 +:+ "," +:+ p2 |} filename
  = selects {| name := n; card_pattern := p1 |} filename
    || selects {| name := n; card_pattern := p2 |} filename.
Proof.
  rewrite !selects_pattern.
  change (p1 +:+ "," +:+ p2) with (p1 +:+ String "," p2).
  by rewrite split_app, existsb_app.
Qed.

(** *** Archive members *)




(** *** What the stage leaves alone *)

Lemma zip_milestone_cards_frame (now : clock) (w : World) (p : string) :
  p ∉ zip_path <$> milestones →
  files (zip_milestone_cards now w).1 !! p = files w !! p.
Proof.
  intros Hp. unfold zip_milestone_cards.
  destruct (makedirs_ok w _); [|done].
  destruct (milestone_loop now milestones 0 [] w) as [w' r] eqn:E.
  by eapply milestone_loop_frame.
Qed.

(** X10. The packaging stage changes no file but the five archives, and
    the whole [main] changes no file but the five archives and the vault
    file, however the run ends. *)
Theorem packaging_frame (environ : gmap string string)
    (json_dump : list VaultEntry → string) (now : clock) (w : World)
    (p : string) :
  p ∉ zip_path <$> milestones →
  files (zip_milestone_cards now w).1 !! p = files w !! p
  ∧ (p ≠ os_path_join
           (default "/tmp/agentic_etc" (environ !! "AGENTIC_ETC"))
           "beaver_passwords.secure" →
     files (main environ json_dump now w).1 !! p = files w !! p).
Proof.
  intros Hp. pose proof (zip_milestone_cards_frame now w p Hp) as Hz.
  split; [done|]. intros Hv. unfold main.
  destruct (zip_milestone_cards now w) as [w1 [v|]]; [|done].
  destruct (save_password_vault environ json_dump v w1) as [w2 o] eqn:E.
  simpl in *. by erewrite save_password_vault_frame.
Qed.

Lemma notes_no_archive :
  "/home/xnull/notes.txt" ∉ zip_path <$> milestones.
Proof. apply (bool_decide_unpack _). by vm_compute. Qed.

Lemma packaging_frame_witness :
  files (main ∅ (λ _, "[]") (fixed_clock 2026 11 4)
           (easy_world None
              {[ "/home/xnull/notes.txt"
                 := {| data := Text "n"; mode := 420 |} ]})).1
    !! "/home/xnull/notes.txt"
  = Some {| data := Text "n"; mode := 420 |}.
Proof.
  destruct (packaging_frame ∅ (λ _, "[]") (fixed_clock 2026 11 4)
              (easy_world None
                 {[ "/home/xnull/notes.txt"
                    := {| data := Text "n"; mode := 420 |} ]})
              "/home/xnull/notes.txt" notes_no_archive) as [_ H].
  rewrite H; [apply lookup_singleton_eq|].
  rewrite lookup_empty. simpl. discriminate.
Defined.

(** *** A run that fails *)

Lemma milestone_loop_raise (now : clock) (ms : list Milestone) (k : nat)
    (v : list VaultEntry) (w w' : World) :
  milestone_loop now ms k v w = (w', Raise) → NoDup (zip_path <$> ms) →
  ∃ ms1 m ms2,
    ms = (ms1 ++ m :: ms2)%list
    ∧ (∀ m', m' ∈ ms1 →
         ∃ listing md,
           work_cards w = Some listing
           ∧ files w' !! zip_path m'
             = Some {| data := ZipArchive (selected m' listing);
                       mode := md |})
    ∧ (∀ m', m' ∈ ms2 → files w' !! zip_path m' = files w !! zip_path m').
Proof.
  revert k v w. induction ms as [|m0 ms IH]; intros k v w H Hnd; [done|].
  cbn [milestone_loop] in H. rewrite fmap_cons in Hnd.
  apply NoDup_cons in Hnd as [Hfresh Hnd].
  destruct (write_archive m0 w) as [w1 []] eqn:E.
  - destruct (IH _ _ _ H Hnd) as (ms1 & m & ms2 & -> & Hbefore & Hafter).
    pose proof (write_archive_env _ _ _ _ E) as (Hwc & _).
    exists (m0 :: ms1), m, ms2. split; [done|]. split.
    + intros m' [->|Hin]%elem_of_cons.
      * apply write_archive_completed in E as (listing & md & Hl & Hf & _).
        exists listing, md. split; [done|].
        by erewrite milestone_loop_frame.
      * destruct (Hbefore m' Hin) as (listing & md & Hl & Hf).
        exists listing, md. split; [congruence|done].
    + intros m' Hin. rewrite Hafter by done.
      eapply write_archive_frame; [done|]. intros Heq. apply Hfresh.
      rewrite <-Heq. apply list_elem_of_fmap. exists m'. split; [done|].
      apply elem_of_app. right. by right.
  - simplify_eq. exists [], m0, ms. split; [done|]. split.
    + by intros m' ?%elem_of_nil.
    + intros m' Hin. eapply write_archive_frame; [done|].
      intros Heq. apply Hfresh. rewrite <-Heq.
      apply list_elem_of_fmap. by exists m'.
Qed.

(** X11. When the packaging stage raises, the milestones of the list fall
    into three parts: those before the failing one have their complete
    new archives, the failing one, and those after it, whose archives are
    as they were before the run. When already the archive directory
    cannot be made, nothing changes at all. *)
Theorem packaging_failure_is_partial (now : clock) (w w' : World) :
  zip_milestone_cards now w = (w', Raise) →
  (makedirs_ok w milestone_vaults_path = false → w' = w)
  ∧ (makedirs_ok w milestone_vaults_path = true →
     ∃ ms1 m ms2,
       milestones = (ms1 ++ m :: ms2)%list
       ∧ (∀ m', m' ∈ ms1 →
            ∃ listing md,
              work_cards w = Some listing
              ∧ files w' !! zip_path m'
                = Some {| data := ZipArchive (selected m' listing);
                          mode := md |})
       ∧ (∀ m', m' ∈ ms2 →
            files w' !! zip_path m' = files w !! zip_path m')).
Proof.
  unfold zip_milestone_cards. intros H. split; intros Hmk; rewrite Hmk in H.
  - by simplify_eq.
  - by apply milestone_loop_raise in H; [|apply zip_paths_distinct].
Qed.

Lemma unreadable_card_run_raises :
  (zip_milestone_cards (fixed_clock 2026 11 4)
     (easy_world (Some [("CARD_01[3-9].yml", None)]) ∅)).2 = Raise.
Proof. vm_compute. reflexivity. Qed.

Lemma packaging_failure_is_partial_witness :
  ∃ w' ms1 m ms2,
    zip_milestone_cards (fixed_clock 2026 11 4)
      (easy_world (Some [("CARD_01[3-9].yml", None)]) ∅) = (w', Raise)
    ∧ milestones = (ms1 ++ m :: ms2)%list
    ∧ (∀ m', m' ∈ ms2 → files w' !! zip_path m' = None).
Proof.
  pose proof unreadable_card_run_raises as H.
  destruct (zip_milestone_cards _ _) as [w' r] eqn:E.
  simpl in H. subst r.
  destruct (packaging_failure_is_partial _ _ _ E) as [_ Hparts].
  destruct (Hparts eq_refl) as (ms1 & m & ms2 & Hms & _ & Hafter).
  exists w', ms1, m, ms2. split; [reflexivity|]. split; [exact Hms|].
  intros m' Hm'. rewrite (Hafter m' Hm'). apply lookup_empty.
Defined.

(** X12. On a machine where the card directory cannot be listed, the run
    raises at the first milestone, after the archive file of that
    milestone has been opened for writing: an archive the milestone had
    from an earlier run is replaced by an empty one, and no other file
    changes. *)
Theorem missing_directory_empties_first_archive (now : clock) (w : World) :
  work_cards w = None →
  makedirs_ok w milestone_vaults_path = true →
  writable w (zip_path {| name := "MILESTONE_2_CORE_KV_OPS";
                          card_pattern :=
                            "CARD_00[6-9].yml,CARD_01[0-2].yml" |}) = true →
  ∃ w' md,
    zip_milestone_cards now w = (w', Raise)
    ∧ files w' !! zip_path {| name := "MILESTONE_2_CORE_KV_OPS";
                              card_pattern :=
                                "CARD_00[6-9].yml,CARD_01[0-2].yml" |}
      = Some {| data := ZipArchive []; mode := md |}
    ∧ (∀ p, p ≠ zip_path {| name := "MILESTONE_2_CORE_KV_OPS";
                            card_pattern :=
                              "CARD_00[6-9].yml,CARD_01[0-2].yml" |} →
         files w' !! p = files w !! p).
Proof.
  intros Hcards Hmk Hwr. unfold zip_milestone_cards. rewrite Hmk.
  unfold milestones. cbn [milestone_loop]. unfold write_archive.
  rewrite Hwr, Hcards. eexists _, _. split; [done|]. split.
  - simpl. by rewrite lookup_insert_eq.
  - intros p Hp. simpl. by rewrite lookup_insert_ne.
Qed.

Lemma missing_directory_empties_first_archive_witness :
  ∃ w' md,
    zip_milestone_cards (fixed_clock 2026 11 4)
      (easy_world None
         {[ zip_path {| name := "MILESTONE_2_CORE_KV_OPS";
                        card_pattern :=
                          "CARD_00[6-9].yml,CARD_01[0-2].yml" |}
            := {| data := ZipArchive [("CARD_006_x.yml", "card")];
                  mode := 420 |} ]})
    = (w', Raise)
    ∧ files w' !! zip_path {| name := "MILESTONE_2_CORE_KV_OPS";
                              card_pattern :=
                                "CARD_00[6-9].yml,CARD_01[0-2].yml" |}
      = Some {| data := ZipArchive []; mode := md |}.
Proof.
  destruct (missing_directory_empties_first_archive (fixed_clock 2026 11 4)
              (easy_world None
                 {[ zip_path {| name := "MILESTONE_2_CORE_KV_OPS";
                                card_pattern :=
                                  "CARD_00[6-9].yml,CARD_01[0-2].yml" |}
                    := {| data := ZipArchive [("CARD_006_x.yml", "card")];
                          mode := 420 |} ]})
              eq_refl eq_refl eq_refl) as (w' & md & E & Hf & _).
  exists w', md. split; [exact E | exact Hf].
Defined.

(** *** Passwords *)

Lemma password_key (d d' : Date) (m m' : Milestone) :
  valid_date d → valid_date d' →
  password (entry_for d m) = password (entry_for d' m') →
  d = d' ∧ name m = name m'.
Proof.
  intros Hv Hv' H. unfold entry_for in H. cbn [password] in H.
  apply (inj (String.append "beaver_dam_")) in H.
  apply string_app_inj_length in H as [Hd Hn];
    [|by rewrite !strftime_Ymd_length].
  split; [by apply strftime_Ymd_inj|].
  by apply (inj (String.append "_")) in Hn.
Qed.

Lemma packaging_names_distinct : NoDup (name <$> milestones).
Proof. apply (bool_decide_unpack _). by vm_compute. Qed.

(** X13. The password of a vault entry gives away the date and the
    milestone it was made for, and nothing else goes into it: in the
    vault of a completed run no two entries share a password, even when
    the run passes midnight. *)
Theorem passwords_distinct (now : clock) (w w' : World)
    (vault : list VaultEntry) :
  zip_milestone_cards now w = (w', Return vault) →
  (∀ k, (k < List.length milestones)%nat → valid_date (now k)) →
  NoDup (password <$> vault)
  ∧ (∀ d d' m m', valid_date d → valid_date d' →
       password (entry_for d m) = password (entry_for d' m') →
       d = d' ∧ name m = name m').
Proof.
  unfold zip_milestone_cards. intros H Hvalid.
  destruct (makedirs_ok w _); [|done].
  apply milestone_loop_vault in H. rewrite app_nil_l in H. subst vault.
  split; [|intros; by eapply password_key].
  apply NoDup_alt. intros i j pw.
  rewrite !list_lookup_fmap, !list_lookup_imap.
  destruct (milestones !! i) as [mi|] eqn:Ei; [|done].
  destruct (milestones !! j) as [mj|] eqn:Ej; [|done].
  intros Hi Hj.
  change (Some (password (entry_for (now i) mi)) = Some pw) in Hi.
  change (Some (password (entry_for (now j) mj)) = Some pw) in Hj.
  assert (password (entry_for (now i) mi) = password (entry_for (now j) mj))
    as Heq by congruence.
  apply password_key in Heq as [_ Hname];
    [|apply Hvalid; by eapply lookup_lt_Some..].
  apply (proj1 (NoDup_alt _) packaging_names_distinct i j (name mi));
    rewrite list_lookup_fmap; [by rewrite Ei|by rewrite Ej, Hname].
Qed.

Lemma passwords_distinct_witness :
  ∃ vault,
    (zip_milestone_cards (fixed_clock 2026 11 4)
       (easy_world (Some ((λ fn, (fn, Some "card")) <$> seven_cards)) ∅)).2
    = Return vault
    ∧ NoDup (password <$> vault).
Proof.
  destruct seven_cards_run_completes as (w' & vault & E).
  rewrite E. exists vault. split; [reflexivity|].
  apply (passwords_distinct _ _ _ _ E).
  intros k _. unfold valid_date. simpl. lia.
Defined.

(** *** The vault file when saving fails *)

(** X14. [save_password_vault] writes the text before it restricts the
    mode. When the directory cannot be made or the file cannot be opened,
    nothing changes; when only [os.chmod] fails, the passwords are on
    disk all the same, under the mode the file had before, or under
    [0o666 & ~umask] when the file is new. *)
Theorem save_failure_modes (environ : gmap string string)
    (json_dump : list VaultEntry → string) (vault : list VaultEntry)
    (w : World) :
  let base := default "/tmp/agentic_etc" (environ !! "AGENTIC_ETC") in
  let vault_path := os_path_join base "beaver_passwords.secure" in
  (makedirs_ok w base = false →
   save_password_vault environ json_dump vault w = (w, Raised))
  ∧ (writable w vault_path = false →
     save_password_vault environ json_dump vault w = (w, Raised))
  ∧ (makedirs_ok w base = true → writable w vault_path = true →
     chmod_ok w vault_path = false →
     ∃ w1,
       save_password_vault environ json_dump vault w = (w1, Raised)
       ∧ files w1 !! vault_path
         = Some {| data := Text (json_dump vault);
                   mode := match files w !! vault_path with
                           | Some f => mode f
                           | None => Z.land 438 (Z.lnot (umask w))
                           end |}).
Proof.
  intros base vault_path. unfold save_password_vault.
  fold base. fold vault_path. split; [by intros ->|]. split.
  - intros ->. by destruct (makedirs_ok w base).
  - intros -> -> Hch. simpl. rewrite Hch. eexists. split; [done|].
    simpl. by rewrite lookup_insert_eq.
Qed.

Lemma save_failure_modes_witness :
  ∃ w1,
    save_password_vault ∅ (λ _, "[secret]") []
      {| work_cards := None; makedirs_ok := λ _, true;
         writable := λ _, true; chmod_ok := λ _, false; umask := 18;
         files := ∅ |}
    = (w1, Raised)
    ∧ files w1 !! "/tmp/agentic_etc/beaver_passwords.secure"
      = Some {| data := Text "[secret]"; mode := 420 |}.
Proof.
  destruct (save_failure_modes ∅ (λ _, "[secret]") []
              {| work_cards := None; makedirs_ok := λ _, true;
                 writable := λ _, true; chmod_ok := λ _, false; umask := 18;
                 files := ∅ |}) as (_ & _ & H).
  destruct (H eq_refl eq_refl eq_refl) as (w1 & E & Hf).
  exists w1. split; [exact E | exact Hf].
Defined.

(** *** A completed [main] *)

Lemma save_password_vault_completed (environ : gmap string string)
    (json_dump : list VaultEntry → string) (vault : list VaultEntry)
    (w w' : World) :
  save_password_vault environ json_dump vault w = (w', Completed) →
  let base := default "/tmp/agentic_etc" (environ !! "AGENTIC_ETC") in
  let vault_path := os_path_join base "beaver_passwords.secure" in
  makedirs_ok w base = true ∧ writable w vault_path = true
  ∧ chmod_ok w vault_path = true
  ∧ files w' !! vault_path
    = Some {| data := Text (json_dump vault); mode := 384 |}
  ∧ work_cards w' = work_cards w ∧ makedirs_ok w' = makedirs_ok w
  ∧ writable w' = writable w ∧ chmod_ok w' = chmod_ok w
  ∧ umask w' = umask w.
Proof.
  intros H base vault_path. unfold save_password_vault in H.
  fold base in H. fold vault_path in H.
  destruct (makedirs_ok w base); [|done].
  destruct (writable w vault_path); [|done].
  destruct (chmod_ok _ vault_path) eqn:Hch; [|done]. simplify_eq.
  simpl in Hch. unfold chmod. simpl. rewrite lookup_insert_eq. simpl.
  by rewrite lookup_insert_eq.
Qed.

(** X15. A completed [main] leaves, for every milestone of the packaging
    list, the archive with the selected card files, and the vault file
    with mode [0o600] holding the dump of one entry per milestone, in
    list order, each with the password of the date read when that
    milestone was reached. Writing the vault file overwrites no
    archive. *)
Theorem main_completed (environ : gmap string string)
    (json_dump : list VaultEntry → string) (now : clock) (w w' : World) :
  main environ json_dump now w = (w', Completed) →
  ∃ listing,
    work_cards w = Some listing
    ∧ files w' !! os_path_join
                    (default "/tmp/agentic_etc" (environ !! "AGENTIC_ETC"))
                    "beaver_passwords.secure"
      = Some {| data :=
                  Text (json_dump
                          (imap (λ j m, entry_for (now j) m) milestones));
                mode := 384 |}
    ∧ (∀ m, m ∈ milestones →
         ∃ md, files w' !! zip_path m
               = Some {| data := ZipArchive (selected m listing);
                         mode := md |}).
Proof.
  unfold main. intros H.
  destruct (zip_milestone_cards now w) as [w1 [vault|]] eqn:E; [|done].
  pose proof (save_password_vault_completed _ _ _ _ _ H)
    as (_ & _ & _ & Hvault & _).
  unfold zip_milestone_cards in E. destruct (makedirs_ok w _); [|done].
  pose proof (milestone_loop_vault _ _ _ _ _ _ _ E) as Hv.
  rewrite app_nil_l in Hv. subst vault.
  destruct (milestone_loop_archive _ _ _ _ _ _ _ _ E zip_paths_distinct
              (list_elem_of_here _ _)) as (listing & _ & Hl & _).
  exists listing. split; [done|]. split; [done|].
  intros m Hm.
  destruct (milestone_loop_archive _ _ _ _ _ _ _ m E zip_paths_distinct Hm)
    as (listing' & md & Hl' & Hf & _).
  assert (listing' = listing) as -> by congruence.
  exists md. rewrite <-Hf. eapply save_password_vault_frame; [done|].
  intros Heq. symmetry in Heq. by apply vault_path_not_zip_path in Heq.
Qed.

Lemma seven_cards_main_completes :
  (main ∅ (λ _, "[]") (fixed_clock 2026 11 4)
     (easy_world (Some ((λ fn, (fn, Some "card")) <$> seven_cards)) ∅)).2
  = Completed.
Proof. vm_compute. reflexivity. Qed.

Lemma main_completed_witness :
  ∃ w',
    main ∅ (λ _, "[]") (fixed_clock 2026 11 4)
      (easy_world (Some ((λ fn, (fn, Some "card")) <$> seven_cards)) ∅)
    = (w', Completed)
    ∧ files w' !! "/tmp/agentic_etc/beaver_passwords.secure"
      = Some {| data := Text "[]"; mode := 384 |}.
Proof.
  pose proof seven_cards_main_completes as H.
  destruct (main ∅ (λ _, "[]") (fixed_clock 2026 11 4) _) as [w' o] eqn:E.
  simpl in H. subst o. exists w'. split; [reflexivity|].
  destruct (main_completed _ _ _ _ _ E) as (listing & _ & Hv & _).
  exact Hv.
Defined.

(** *** Running [main] again *)







End zip_milestones_more.

(** ** [base64_encode] *)

Module base64_facts.
Import PyStr zip_milestones.

#[local] Arguments b64_char : simpl never.
#[local] Arguments b64_index : simpl never.

Lemma below_64 (P : N → Prop) `{!∀ i, Decision (P i)} :
  forallb (λ k, bool_decide (P (N.of_nat k))) (seq 0 64) = true →
  ∀ i, (i < 64)%N → P i.
Proof.
  intros Hall i Hi. rewrite forallb_forall in Hall.
  specialize (Hall (N.to_nat i)). rewrite N2Nat.id in Hall.
  eapply bool_decide_eq_true_1, Hall, in_seq. lia.
Qed.

Lemma b64_index_char (i : N) :
  (i < 64)%N → b64_index (b64_char i) = Some i.
Proof.
  revert i. apply (below_64 (λ i, b64_index (b64_char i) = Some i)).
  by vm_compute.
Qed.

Lemma b64_char_not_pad (i : N) :
  (i < 64)%N → Ascii.eqb (b64_char i) "=" = false.
Proof.
  revert i. apply (below_64 (λ i, Ascii.eqb (b64_char i) "=" = false)).
  by vm_compute.
Qed.

Lemma b64_char_in_alphabet (i : N) :
  (i < 64)%N → char_in (b64_char i) b64_alphabet.
Proof.
  revert i. unfold char_in.
  apply (below_64 (λ i, b64_char i ∈ list_ascii_of_string b64_alphabet)).
  by vm_compute.
Qed.

(** The four six-bit values of a group of three bytes, and the bytes
    read back from them. *)
Lemma group_of_three (A B C : N) :
  (A ≤ 255 → B ≤ 255 → C ≤ 255 →
   let n := A * 65536 + B * 256 + C in
   n / 262144 < 64 ∧ n / 4096 mod 64 < 64 ∧ n / 64 mod 64 < 64
   ∧ n mod 64 < 64
   ∧ (n / 262144) * 4 + (n / 4096 mod 64) / 16 = A
   ∧ (n / 4096 mod 64) mod 16 * 16 + (n / 64 mod 64) / 4 = B
   ∧ (n / 64 mod 64) mod 4 * 64 + n mod 64 = C)%N.
Proof.
  intros HA HB HC n.
  pose proof (N.div_mod A 4 ltac:(lia)) as EA.
  pose proof (N.mod_lt A 4 ltac:(lia)) as LA.
  pose proof (N.div_mod B 16 ltac:(lia)) as EB.
  pose proof (N.mod_lt B 16 ltac:(lia)) as LB.
  pose proof (N.div_mod C 64 ltac:(lia)) as EC.
  pose proof (N.mod_lt C 64 ltac:(lia)) as LC.
  set (a1 := (A / 4)%N) in *. set (a0 := (A mod 4)%N) in *.
  set (b1 := (B / 16)%N) in *. set (b0 := (B mod 16)%N) in *.
  set (c1 := (C / 64)%N) in *. set (c0 := (C mod 64)%N) in *.
  assert (n / 262144 = a1)%N as E1.
  { symmetry.
    apply (N.div_unique n 262144 a1 (a0 * 65536 + B * 256 + C));
      subst n; lia. }
  assert (n / 4096 = a1 * 64 + (a0 * 16 + b1))%N as E2.
  { symmetry. apply (N.div_unique n 4096 _ (b0 * 256 + C)); subst n; lia. }
  assert (n / 64 = (a1 * 64 + (a0 * 16 + b1)) * 64 + (b0 * 4 + c1))%N as E3.
  { symmetry. apply (N.div_unique n 64 _ c0); subst n; lia. }
  assert (n mod 64 = c0)%N as E4.
  { symmetry.
    apply (N.mod_unique n 64
             ((a1 * 64 + (a0 * 16 + b1)) * 64 + (b0 * 4 + c1)) c0);
      subst n; lia. }
  assert (n / 4096 mod 64 = a0 * 16 + b1)%N as E5.
  { rewrite E2. symmetry. apply (N.mod_unique _ 64 a1); lia. }
  assert (n / 64 mod 64 = b0 * 4 + c1)%N as E6.
  { rewrite E3. symmetry.
    apply (N.mod_unique _ 64 (a1 * 64 + (a0 * 16 + b1))); lia. }
  rewrite E1, E4, E5, E6.
  assert ((a0 * 16 + b1) / 16 = a0)%N as ->
    by (symmetry; apply (N.div_unique _ 16 a0 b1); lia).
  assert ((a0 * 16 + b1) mod 16 = b1)%N as ->
    by (symmetry; apply (N.mod_unique _ 16 a0 b1); lia).
  assert ((b0 * 4 + c1) / 4 = b0)%N as ->
    by (symmetry; apply (N.div_unique _ 4 b0 c1); lia).
  assert ((b0 * 4 + c1) mod 4 = c1)%N as ->
    by (symmetry; apply (N.mod_unique _ 4 b0 c1); lia).
  repeat split; lia.
Qed.

Lemma list_ind3 {A} (P : list A → Prop) :
  P [] → (∀ a, P [a]) → (∀ a b, P [a; b]) →
  (∀ a b c l, P l → P (a :: b :: c :: l)) → ∀ l, P l.
Proof.
  intros H0 H1 H2 H3. fix IH 1.
  intros [|a [|b [|c l]]];
    [exact H0 | exact (H1 a) | exact (H2 a b) | exact (H3 a b c l (IH l))].
Qed.

Example base64_encode_ex :
  base64_encode (list_byte_of_string "Man") = "TWFu"
  ∧ base64_encode (list_byte_of_string "Ma") = "TWE="
  ∧ base64_encode (list_byte_of_string "M") = "TQ=="
  ∧ base64_encode [] = ""
  ∧ b64decode "TWE=" = Some (list_byte_of_string "Ma").
Proof. vm_compute. done. Qed.

Lemma byte_group (a b c : Byte.byte) :
  let n := (Byte.to_N a * 65536 + Byte.to_N b * 256 + Byte.to_N c)%N in
  (n / 262144 < 64 ∧ n / 4096 mod 64 < 64 ∧ n / 64 mod 64 < 64
   ∧ n mod 64 < 64)%N
  ∧ Byte.of_N ((n / 262144) * 4 + (n / 4096 mod 64) / 16) = Some a
  ∧ Byte.of_N ((n / 4096 mod 64) mod 16 * 16 + (n / 64 mod 64) / 4) = Some b
  ∧ Byte.of_N ((n / 64 mod 64) mod 4 * 64 + n mod 64) = Some c.
Proof.
  intros n. subst n.
  destruct (group_of_three (Byte.to_N a) (Byte.to_N b) (Byte.to_N c))
    as (H1 & H2 & H3 & H4 & Ea & Eb & Ec); [apply Byte.to_N_bounded..|].
  cbv zeta in *. rewrite Ea, Eb, Ec. by rewrite !Byte.of_to_N.
Qed.

Lemma b64decode_encode (data : list Byte.byte) :
  b64decode (b64encode data) = Some data.
Proof.
  induction data as [|a|a b|a b c rest IH] using list_ind3.
  - done.
  - pose proof (byte_group a Byte.x00 Byte.x00) as Hg.
    replace (Byte.to_N a * 65536 + Byte.to_N Byte.x00 * 256
             + Byte.to_N Byte.x00)%N
      with (Byte.to_N a * 65536)%N in Hg by (simpl; lia).
    destruct Hg as ((H1 & H2 & _ & _) & Ha & _ & _).
    cbn [b64encode b64decode]. cbv zeta.
    rewrite !b64_index_char by done. cbn [mbind option_bind].
    simpl Ascii.eqb. cbn [andb]. rewrite bool_decide_eq_true_2 by done.
    by rewrite Ha.
  - pose proof (byte_group a b Byte.x00) as Hg.
    replace (Byte.to_N a * 65536 + Byte.to_N b * 256
             + Byte.to_N Byte.x00)%N
      with (Byte.to_N a * 65536 + Byte.to_N b * 256)%N in Hg
      by (simpl; lia).
    destruct Hg as ((H1 & H2 & H3 & _) & Ha & Hb & _).
    cbn [b64encode b64decode]. cbv zeta.
    rewrite !b64_index_char by done. cbn [mbind option_bind].
    rewrite b64_char_not_pad by done. simpl Ascii.eqb.
    rewrite bool_decide_eq_true_2 by done.
    by rewrite Ha, Hb.
  - destruct (byte_group a b c) as ((H1 & H2 & H3 & H4) & Ha & Hb & Hc).
    cbn [b64encode b64decode]. cbv zeta.
    rewrite !b64_index_char by done. cbn [mbind option_bind].
    rewrite !b64_char_not_pad by done.
    by rewrite Ha, Hb, Hc, IH.
Qed.

(** X17. What [base64_encode] returns can be decoded again: reading the
    text back in groups of four characters gives the bytes that were
    encoded, so two different byte strings never get the same text. *)
Theorem base64_encode_round_trip (data data' : list Byte.byte) :
  b64decode (base64_encode data) = Some data
  ∧ (base64_encode data = base64_encode data' → data = data').
Proof.
  split; [apply b64decode_encode|]. unfold base64_encode. intros H.
  apply (f_equal b64decode) in H. rewrite !b64decode_encode in H.
  by simplify_eq.
Qed.

Lemma b64_char_chars (c : ascii) (i : N) :
  c = b64_char i → char_in c b64_alphabet ∨ c = "="%char.
Proof.
  intros ->. destruct (decide (i < 64)%N) as [Hi|Hi].
  - left. by apply b64_char_in_alphabet.
  - right. unfold b64_char.
    destruct (String.get (N.to_nat i) b64_alphabet) as [c|] eqn:E; [|done].
    assert (N.to_nat i < String.length b64_alphabet)%nat; [|simpl in *; lia].
    clear Hi. revert E. generalize (N.to_nat i) b64_alphabet.
    intros k s. revert k. induction s as [|a s IH]; intros [|k]; simpl;
      try done; [lia|]. intros ?%IH. lia.
Qed.

(** X18. The text of [base64_encode] has four characters for every
    started group of three bytes, so its length is a multiple of four,
    and it is made of the 64 characters of the alphabet and the padding
    sign [=] only. *)
Theorem base64_encode_shape (data : list Byte.byte) :
  String.length (base64_encode data)
  = (4 * ((List.length data + 2) / 3))%nat
  ∧ (∀ c, char_in c (base64_encode data) →
       char_in c b64_alphabet ∨ c = "="%char).
Proof.
  unfold base64_encode. split.
  - induction data as [|a|a b|a b c rest IH] using list_ind3; try done.
    cbn [b64encode List.length]. cbv zeta. cbn [String.length]. rewrite IH.
    replace (S (S (S (List.length rest))) + 2)%nat
      with (1 * 3 + (List.length rest + 2))%nat by lia.
    rewrite Nat.div_add_l by done. lia.
  - induction data as [|a|a b|a b c rest IH] using list_ind3; intros ch.
    + by intros ?%generate_work_cards_more.char_in_nil.
    + cbn [b64encode]. cbv zeta.
      rewrite !generate_work_cards_more.char_in_cons.
      intros [H|[H|[H|[H|H]]]]; eauto using b64_char_chars.
      by apply generate_work_cards_more.char_in_nil in H.
    + cbn [b64encode]. cbv zeta.
      rewrite !generate_work_cards_more.char_in_cons.
      intros [H|[H|[H|[H|H]]]]; eauto using b64_char_chars.
      by apply generate_work_cards_more.char_in_nil in H.
    + cbn [b64encode]. cbv zeta.
      rewrite !generate_work_cards_more.char_in_cons.
      intros [H|[H|[H|[H|H]]]]; eauto using b64_char_chars.
Qed.

End base64_facts.
